(** * Azure Data Studio: query history, static recommendations, DacFx test double

    A shallow embedding of three TypeScript classes and the properties their
    specification states about them:

    - [DacFx]: [DacFxTestService], the constant-returning test double of the
      [mssql.IDacFxService] interface;
    - [Recommendations]: [StaticRecommendations], the recommendation list
      built from the product configuration;
    - [QueryHistory]: [QueryHistoryProvider], the tree-data provider that
      records executed queries and persists them to secret storage.

    JavaScript objects live in an explicit store and are handed around by
    reference; promises are values that are either resolved or rejected. *)

From stdpp Require Import gmap strings list fin_maps.

Open Scope string_scope.

(** ** Promises *)

(** A settled promise.  A call of a method or of a listener is modelled as
    running to completion: each awaited request is answered before any other
    callback runs.  The one place where the classes let callbacks overlap to
    an effect on the data, the connection lookup of the query listener, is
    modelled turn by turn in [QueryHistory.turns]. *)
Inductive Promise (E A : Type) : Type :=
| Resolved (a : A)
| Rejected (e : E).
Arguments Resolved {E A} a.
Arguments Rejected {E A} e.

(** ** The DacFx test double *)

Module DacFx.

(** [azdata.TaskExecutionMode] and [mssql.ExtractTarget]: enumerations of the
    host typings; the test double ignores their values. *)
Inductive TaskExecutionMode := execute | script | executeAndScript.
Inductive ExtractTarget :=
  dacpac | file | flat | objectType | schema | schemaObjectType.

Definition deployOperationId := "deploy dacpac".
Definition extractOperationId := "extract dacpac".
Definition exportOperationId := "export bacpac".
Definition importOperationId := "import bacpac".
Definition generateScript := "generate script".
(* The next two constants are named like the methods that use them; the
   constants take the suffix [Id] here. *)
Definition generateDeployPlanId := "generate deploy plan".
Definition validateStreamingJobId := "validate streaming job".

Record DacDeployOptionPropertyObject := {
  object_value : list string;
  object_description : string;
  object_propertyName : string }.

Record DacDeployOptionPropertyBoolean := {
  boolean_value : bool;
  boolean_description : string;
  boolean_propertyName : string }.

Record DeploymentOptions := {
  doNotDropObjectTypes : DacDeployOptionPropertyObject;
  excludeObjectTypes : DacDeployOptionPropertyObject;
  optionsMapTable : gmap string DacDeployOptionPropertyBoolean;
  includeObjects : gmap string nat }.

(** A result object.  The four result shapes of the file
    ([DacFxResult], [GenerateDeployPlanResult], [DacFxOptionsResult],
    [ValidateStreamingJobResult]) all carry [success] and [errorMessage];
    a property that an object literal does not have is [None]. *)
Record ResultObject := {
  success : bool;
  operationId : option string;
  errorMessage : string;
  report : option string;
  deploymentOptions : option DeploymentOptions }.

(** [o.operationId = v] *)
Definition set_operationId (v : string) (o : ResultObject) : ResultObject :=
  {| success := success o;
     operationId := Some v;
     errorMessage := errorMessage o;
     report := report o;
     deploymentOptions := deploymentOptions o |}.

(** The object store: objects are allocated at increasing addresses and
    referred to by address, so two references to one object see the same
    writes. *)
Abbreviation loc := nat.

Record Store := {
  heap : gmap loc ResultObject;
  next : loc }.

Definition alloc (o : ResultObject) (st : Store) : loc * Store :=
  (next st, {| heap := <[next st := o]> (heap st); next := S (next st) |}).

Definition write_operationId (l : loc) (v : string) (st : Store) : Store :=
  {| heap := alter (set_operationId v) l (heap st); next := next st |}.

Definition deref (st : Store) (l : loc) : option ResultObject := heap st !! l.

(** The instance: its one field holds a reference to the result object. *)
Record DacFxTestService := { dacfxResult : loc }.

(** [new DacFxTestService()]: the field initialiser allocates the record. *)
Definition new (st : Store) : DacFxTestService * Store :=
  let '(l, st') :=
    alloc {| success := true;
             operationId := Some "test";
             errorMessage := "";
             report := None;
             deploymentOptions := None |} st in
  ({| dacfxResult := l |}, st').

Definition Result := (Promise string loc * Store)%type.

Section Methods.
Variable this : DacFxTestService.

Definition exportBacpac (databaseName packageFilePath ownerUri : string)
    (taskExecutionMode : TaskExecutionMode) (st : Store) : Result :=
  let st := write_operationId (dacfxResult this) exportOperationId st in
  (Resolved (dacfxResult this), st).

Definition importBacpac (packageFilePath databaseName ownerUri : string)
    (taskExecutionMode : TaskExecutionMode) (st : Store) : Result :=
  let st := write_operationId (dacfxResult this) importOperationId st in
  (Resolved (dacfxResult this), st).

Definition extractDacpac
    (databaseName packageFilePath applicationName applicationVersion
       ownerUri : string)
    (taskExecutionMode : TaskExecutionMode) (st : Store) : Result :=
  let st := write_operationId (dacfxResult this) extractOperationId st in
  (Resolved (dacfxResult this), st).

Definition createProjectFromDatabase
    (databaseName targetFilePath applicationName applicationVersion
       ownerUri : string)
    (extractTarget : ExtractTarget)
    (taskExecutionMode : TaskExecutionMode) (st : Store) : Result :=
  let st := write_operationId (dacfxResult this) importOperationId st in
  (Resolved (dacfxResult this), st).

Definition deployDacpac (packageFilePath databaseName : string)
    (upgradeExisting : bool) (ownerUri : string)
    (taskExecutionMode : TaskExecutionMode)
    (sqlCommandVariableValues : option (gmap string string))
    (st : Store) : Result :=
  let st := write_operationId (dacfxResult this) deployOperationId st in
  (Resolved (dacfxResult this), st).

Definition generateDeployScript
    (packageFilePath databaseName ownerUri : string)
    (taskExecutionMode : TaskExecutionMode)
    (sqlCommandVariableValues : option (gmap string string))
    (st : Store) : Result :=
  let st := write_operationId (dacfxResult this) generateScript st in
  (Resolved (dacfxResult this), st).

Definition generateDeployPlan
    (packageFilePath databaseName ownerUri : string)
    (taskExecutionMode : TaskExecutionMode) (st : Store) : Result :=
  let st := write_operationId (dacfxResult this) generateDeployPlanId st in
  let '(deployPlan, st) :=
    alloc {| operationId := Some generateDeployPlanId;
             success := true;
             errorMessage := "";
             report := Some generateDeployPlanId;
             deploymentOptions := None |} st in
  (Resolved deployPlan, st).

Definition getOptionsFromProfile (profilePath : string) (st : Store)
    : Result :=
  let sampleDesc := "Sample Description text" in
  let sampleName := "Sample Property Name" in
  let '(optionsResult, st) :=
    alloc
      {| success := true;
         errorMessage := "";
         deploymentOptions := Some
           {| doNotDropObjectTypes :=
                {| object_value := [];
                   object_description := sampleDesc;
                   object_propertyName := sampleName |};
              excludeObjectTypes :=
                {| object_value := [];
                   object_description := sampleDesc;
                   object_propertyName := sampleName |};
              optionsMapTable :=
                <["Sample Display Name Option1" :=
                    {| boolean_value := false;
                       boolean_description := sampleDesc;
                       boolean_propertyName := sampleName |}]>
                (<["Sample Display Name Option2" :=
                    {| boolean_value := false;
                       boolean_description := sampleDesc;
                       boolean_propertyName := sampleName |}]> ∅);
              includeObjects :=
                <["Sample Include Object Type1" := 0]>
                (<["Sample Include Object Type2" := 2]> ∅) |};
         operationId := None;
         report := None |} st in
  (Resolved optionsResult, st).

Definition validateStreamingJob
    (packageFilePath createStreamingJobTsql : string) (st : Store)
    : Result :=
  let st :=
    write_operationId (dacfxResult this) validateStreamingJobId st in
  let '(streamingJobValidationResult, st) :=
    alloc {| success := true;
             errorMessage := "";
             operationId := None;
             report := None;
             deploymentOptions := None |} st in
  (Resolved streamingJobValidationResult, st).
End Methods.

(** One call of the interface, with its arguments. *)
Inductive Call :=
| ExportBacpac (databaseName packageFilePath ownerUri : string)
    (taskExecutionMode : TaskExecutionMode)
| ImportBacpac (packageFilePath databaseName ownerUri : string)
    (taskExecutionMode : TaskExecutionMode)
| ExtractDacpac
    (databaseName packageFilePath applicationName applicationVersion
       ownerUri : string)
    (taskExecutionMode : TaskExecutionMode)
| CreateProjectFromDatabase
    (databaseName targetFilePath applicationName applicationVersion
       ownerUri : string)
    (extractTarget : ExtractTarget) (taskExecutionMode : TaskExecutionMode)
| DeployDacpac (packageFilePath databaseName : string)
    (upgradeExisting : bool) (ownerUri : string)
    (taskExecutionMode : TaskExecutionMode)
    (sqlCommandVariableValues : option (gmap string string))
| GenerateDeployScript (packageFilePath databaseName ownerUri : string)
    (taskExecutionMode : TaskExecutionMode)
    (sqlCommandVariableValues : option (gmap string string))
| GenerateDeployPlan (packageFilePath databaseName ownerUri : string)
    (taskExecutionMode : TaskExecutionMode)
| GetOptionsFromProfile (profilePath : string)
| ValidateStreamingJob (packageFilePath createStreamingJobTsql : string).

Definition invoke (this : DacFxTestService) (c : Call) : Store -> Result :=
  match c with
  | ExportBacpac a b c m => exportBacpac this a b c m
  | ImportBacpac a b c m => importBacpac this a b c m
  | ExtractDacpac a b c d e m => extractDacpac this a b c d e m
  | CreateProjectFromDatabase a b c d e t m =>
      createProjectFromDatabase this a b c d e t m
  | DeployDacpac a b u o m v => deployDacpac this a b u o m v
  | GenerateDeployScript a b o m v => generateDeployScript this a b o m v
  | GenerateDeployPlan a b o m => generateDeployPlan this a b o m
  | GetOptionsFromProfile p => getOptionsFromProfile p
  | ValidateStreamingJob a b => validateStreamingJob this a b
  end.

(** The store after a sequence of calls, oldest first. *)
Definition run (this : DacFxTestService) (cs : list Call) (st : Store)
    : Store :=
  fold_left (fun st c => snd (invoke this c st)) cs st.

(** The method a call belongs to, without its arguments. *)
Inductive Method :=
| MExportBacpac | MImportBacpac | MExtractDacpac
| MCreateProjectFromDatabase | MDeployDacpac | MGenerateDeployScript
| MGenerateDeployPlan | MGetOptionsFromProfile | MValidateStreamingJob.

Definition method_of (c : Call) : Method :=
  match c with
  | ExportBacpac _ _ _ _ => MExportBacpac
  | ImportBacpac _ _ _ _ => MImportBacpac
  | ExtractDacpac _ _ _ _ _ _ => MExtractDacpac
  | CreateProjectFromDatabase _ _ _ _ _ _ _ => MCreateProjectFromDatabase
  | DeployDacpac _ _ _ _ _ _ => MDeployDacpac
  | GenerateDeployScript _ _ _ _ _ => MGenerateDeployScript
  | GenerateDeployPlan _ _ _ _ => MGenerateDeployPlan
  | GetOptionsFromProfile _ => MGetOptionsFromProfile
  | ValidateStreamingJob _ _ => MValidateStreamingJob
  end.

(** The exported constant that the body of each method assigns to
    [this.dacfxResult.operationId] ([None]: the method does not assign). *)
Definition assigned (m : Method) : option string :=
  match m with
  | MExportBacpac => Some exportOperationId
  | MImportBacpac => Some importOperationId
  | MExtractDacpac => Some extractOperationId
  | MCreateProjectFromDatabase => Some importOperationId
  | MDeployDacpac => Some deployOperationId
  | MGenerateDeployScript => Some generateScript
  | MGenerateDeployPlan => Some generateDeployPlanId
  | MGetOptionsFromProfile => None
  | MValidateStreamingJob => Some validateStreamingJobId
  end.

(** The methods that resolve with [this.dacfxResult] itself. *)
Definition shares (m : Method) : bool :=
  match m with
  | MExportBacpac | MImportBacpac | MExtractDacpac
  | MCreateProjectFromDatabase | MDeployDacpac | MGenerateDeployScript => true
  | MGenerateDeployPlan | MGetOptionsFromProfile | MValidateStreamingJob =>
      false
  end.

(** The [operationId] of the record a method resolves with: the constant it
    assigns, except that the records of [getOptionsFromProfile] and
    [validateStreamingJob] have no such property. *)
Definition resolved_operationId (m : Method) : option string :=
  match m with
  | MGetOptionsFromProfile | MValidateStreamingJob => None
  | m => assigned m
  end.

(** The instance's record is allocated, below the next free address, and
    still reports success. *)
Definition shared_ok (this : DacFxTestService) (st : Store) : Prop :=
  dacfxResult this < next st ∧
  ∃ o, deref st (dacfxResult this) = Some o ∧
       success o = true ∧ errorMessage o = "".

(** The [operationId] that the instance's record holds after a sequence of
    calls, oldest first, when it held [v] before: each call that assigns
    overwrites it. *)
Definition last_assigned (v : string) (cs : list Call) : string :=
  fold_left (fun v c => default v (assigned (method_of c))) cs v.

End DacFx.

(** ** The static recommendations *)

Module Recommendations.

(** [ExtensionRecommendationReason] of the workbench. *)
Inductive ExtensionRecommendationReason :=
| Workspace | File | Executable | WorkspaceConfig | DynamicWorkspace
| Experimental | Application.

Record Reason := {
  reasonId : ExtensionRecommendationReason;
  reasonText : string }.

Record ExtensionRecommendation := {
  extensionId : string;
  reason : Reason;
  source : string }.

(** The part of the product configuration that the class reads. *)
Record IProductService := { recommendedExtensions : list string }.

(** [localize] of [vs/nls]: the host's message lookup, from a key and a
    default text. *)
Class Nls := { localize : string -> string -> string }.

Record StaticRecommendations := {
  _recommendations : list ExtensionRecommendation }.

Section WithNls.
Context `{Nls}.

(** The field initialiser, then the constructor body. *)
Definition constructor (productService : IProductService)
    : StaticRecommendations :=
  let this := {| _recommendations := [] |} in
  {| _recommendations :=
       map (fun r =>
              {| extensionId := r;
                 reason :=
                   {| reasonId := Application;
                      reasonText :=
                        localize "defaultRecommendations"
                          "This extension is recommended by Azure Data Studio." |};
                 source := "application" |})
           (recommendedExtensions productService) |}.

(** The getter. *)
Definition recommendations (this : StaticRecommendations)
    : list ExtensionRecommendation :=
  _recommendations this.

Definition doActivate (this : StaticRecommendations)
    : Promise string unit * StaticRecommendations :=
  (Resolved tt, this).

(** What a client can do with an instance. *)
Inductive Op := GetRecommendations | DoActivate.

Definition perform (o : Op) (this : StaticRecommendations)
    : StaticRecommendations :=
  match o with
  | GetRecommendations => let _ := recommendations this in this
  | DoActivate => snd (doActivate this)
  end.

Definition run (os : list Op) (this : StaticRecommendations)
    : StaticRecommendations :=
  fold_left (fun this o => perform o this) os this.
End WithNls.

End Recommendations.

(** ** The query history provider *)

Module QueryHistory.

Definition STORAGE_KEY := "queryHistory.historyItems".
Definition DEFAULT_CAPTURE_ENABLED := true.
Definition DEFAULT_PERSIST_HISTORY := true.

(** *** Host types *)

(** The message of a rejected promise. *)
Definition Error := string.

(** [azdata.queryeditor.QueryEventType] *)
Inductive QueryEventType :=
| queryStart | queryUpdate | queryStop | executionPlan | visualize.

Global Instance QueryEventType_eq_dec : EqDecision QueryEventType.
Proof. solve_decision. Defined.

(** [vscode.Range] *)
Record Range := {
  startLine : nat; startCharacter : nat;
  endLine : nat; endCharacter : nat }.

(** [azdata.queryeditor.QueryMessage] *)
Record QueryMessage := { message : string; isError : bool }.

(** [azdata.queryeditor.QueryInfo] *)
Record QueryInfo := {
  messages : list QueryMessage;
  batchRanges : list Range }.

(** [azdata.queryeditor.QueryDocument]; the URI comes in as a string. *)
Record QueryDocument := { providerId : string; uri : string }.

(** The third argument of the listener, which the provider does not read. *)
Inductive QueryEventArgs :=
| ArgsResultSetSummary (id batchId rowCount : nat)
| ArgsString (s : string)
| ArgsUndefined.

(** [azdata.connection.ConnectionProfile], with the fields the provider
    reads and the password its comment on secret storage mentions. *)
Record ConnectionProfile := {
  serverName : string;
  databaseName : string;
  userName : string;
  password : string }.

(** A [Date], as milliseconds since the epoch. *)
Definition Date := Z.

Record QueryHistoryItem := {
  queryText : string;
  connectionProfile : option ConnectionProfile;
  timestamp : Date;
  isSuccess : bool }.

(** An item object: an address, which is its identity ([===] compares
    addresses), and its properties, which nothing writes after creation. *)
Definition ItemObject := (nat * QueryHistoryItem)%type.

(** The functions of the platform that the provider calls and whose code
    is not part of the extension. *)
Class Host := {
  Uri : Type;
  Uri_parse : string -> Uri;
  Uri_toString : Uri -> string;
  EOL : string;
  JSON_stringify : list QueryHistoryItem -> string }.

(** *** Secret storage *)

Inductive SecretRequest :=
| ReqStore (key value : string)
| ReqDelete (key : string).

(** [_context.secrets]: the stored entries; the outcome that the storage
    will give to each coming write request, next one first ([Some e]: it
    rejects with [e]; [None] or none left: it succeeds); and the requests
    made so far with their outcomes, latest first. *)
Record SecretStorage := {
  entries : gmap string string;
  outcomes : list (option Error);
  requests : list (SecretRequest * option Error) }.

Definition secrets_request (r : SecretRequest) (s : SecretStorage)
    : Promise Error unit * SecretStorage :=
  match head (outcomes s) with
  | Some (Some e) =>
      (Rejected e,
       {| entries := entries s;
          outcomes := tail (outcomes s);
          requests := (r, Some e) :: requests s |})
  | _ =>
      (Resolved tt,
       {| entries :=
            match r with
            | ReqStore key value => <[key := value]> (entries s)
            | ReqDelete key => delete key (entries s)
            end;
          outcomes := tail (outcomes s);
          requests := (r, None) :: requests s |})
  end.

(** *** The provider and the world it runs in *)

Record QueryHistoryProvider := {
  _queryHistoryItems : list ItemObject;
  _captureEnabled : bool;
  _persistHistory : bool }.

(** The instance together with the host state its methods act on:
    the secret storage, the number of [_onDidChangeTreeData.fire(undefined)]
    calls, the lines written by [console.error] (latest first) and the next
    free object address. *)
Record World := {
  this : QueryHistoryProvider;
  secrets : SecretStorage;
  fired : nat;
  console : list string;
  nextAddress : nat }.

(** The field initialisers of the class. *)
Definition initial : QueryHistoryProvider :=
  {| _queryHistoryItems := [];
     _captureEnabled := DEFAULT_CAPTURE_ENABLED;
     _persistHistory := DEFAULT_PERSIST_HISTORY |}.

(** A computation of the provider: it changes the world and settles; the
    changes made before a rejection stay. *)
Definition M (A : Type) : Type := World -> Promise Error A * World.

Global Instance M_ret : MRet M := fun A a w => (Resolved a, w).
Global Instance M_bind : MBind M := fun A B f m w =>
  match m w with
  | (Resolved a, w') => f a w'
  | (Rejected e, w') => (Rejected e, w')
  end.

Definition get_this : M QueryHistoryProvider :=
  fun w => (Resolved (this w), w).

Definition set_this (p : QueryHistoryProvider) : M unit :=
  fun w =>
    (Resolved tt,
     {| this := p; secrets := secrets w; fired := fired w;
        console := console w; nextAddress := nextAddress w |}).

Definition set_queryHistoryItems (l : list ItemObject) : M unit :=
  p ← get_this;
  set_this {| _queryHistoryItems := l;
              _captureEnabled := _captureEnabled p;
              _persistHistory := _persistHistory p |}.

(** [{ ... }]: a new object at a fresh address. *)
Definition new_object (v : QueryHistoryItem) : M ItemObject :=
  fun w =>
    (Resolved (nextAddress w, v),
     {| this := this w; secrets := secrets w; fired := fired w;
        console := console w; nextAddress := S (nextAddress w) |}).

Definition console_error (line : string) : M unit :=
  fun w =>
    (Resolved tt,
     {| this := this w; secrets := secrets w; fired := fired w;
        console := line :: console w; nextAddress := nextAddress w |}).

(** [this._onDidChangeTreeData.fire(undefined)] *)
Definition fire_undefined : M unit :=
  fun w =>
    (Resolved tt,
     {| this := this w; secrets := secrets w; fired := S (fired w);
        console := console w; nextAddress := nextAddress w |}).

Definition secrets_call (r : SecretRequest) : M unit :=
  fun w =>
    let '(p, s) := secrets_request r (secrets w) in
    (p,
     {| this := this w; secrets := s; fired := fired w;
        console := console w; nextAddress := nextAddress w |}).

(** [await p] for a promise that the host has settled. *)
Definition await {A} (p : Promise Error A) : M A :=
  fun w => (p, w).

Section Provider.
Context `{Host}.

(** [vscode.TextDocument]: its URI and its text within a range. *)
Record TextDocument := {
  document_uri : Uri;
  getText : Range -> option string }.

(** The workspace configuration section of the extension: its two
    settings, [None] where the user has set nothing. *)
Record Configuration := {
  captureEnabled : option bool;
  persistHistory : option bool }.

(** What the host answers when a callback runs: the open text documents,
    the connection of a URI, the clock and the configuration. *)
Record Env := {
  textDocuments : list TextDocument;
  getConnection : string -> Promise Error (option ConnectionProfile);
  now : Date;
  getConfiguration : Configuration }.

Definition storeHistory : M unit :=
  p ← get_this;
  if _persistHistory p then
    secrets_call
      (ReqStore STORAGE_KEY (JSON_stringify (snd <$> _queryHistoryItems p)))
  else mret tt.

(** The listener registered with [registerQueryEventListener]. *)
Definition onQueryEvent (env : Env) (type : QueryEventType)
    (document : QueryDocument) (args : QueryEventArgs)
    (queryInfo : option QueryInfo) : M unit :=
  p ← get_this;
  match _captureEnabled p, queryInfo, decide (type = queryStop) with
  | true, Some queryInfo, left _ =>
      match
        List.find
          (fun e =>
             String.eqb (Uri_toString (document_uri e))
               (Uri_toString (Uri_parse (uri document))))
          (textDocuments env)
      with
      | None =>
          console_error
            ("Couldn't find text document with URI " ++ uri document
               ++ " for query event")
      | Some textDocument =>
          let queryText :=
            String.concat EOL
              ((fun r => default "" (getText textDocument r))
                 <$> batchRanges queryInfo) in
          connectionProfile ← await (getConnection env (uri document));
          let isSuccess :=
            match List.find isError (messages queryInfo) with
            | Some _ => false
            | None => true
            end in
          item ← new_object
            {| queryText := queryText;
               connectionProfile := connectionProfile;
               timestamp := now env;
               isSuccess := isSuccess |};
          p ← get_this;
          set_queryHistoryItems (item :: _queryHistoryItems p);;
          storeHistory;;
          fire_undefined
      end
  | _, _, _ => mret tt
  end.

Definition clearAll : M unit :=
  set_queryHistoryItems [];;
  storeHistory;;
  fire_undefined.

Definition deleteItem (item : ItemObject) : M unit :=
  p ← get_this;
  set_queryHistoryItems
    (List.filter (fun n => negb (fst n =? fst item)%nat)
       (_queryHistoryItems p));;
  storeHistory;;
  fire_undefined.

Definition getChildren (element : option ItemObject) (w : World)
    : list ItemObject :=
  _queryHistoryItems (this w).

Definition updateConfigurationValues (env : Env) : M unit :=
  let configSection := getConfiguration env in
  p ← get_this;
  set_this
    {| _queryHistoryItems := _queryHistoryItems p;
       _captureEnabled :=
         default DEFAULT_CAPTURE_ENABLED (captureEnabled configSection);
       _persistHistory := _persistHistory p |};;
  p ← get_this;
  set_this
    {| _queryHistoryItems := _queryHistoryItems p;
       _captureEnabled := _captureEnabled p;
       _persistHistory :=
         default DEFAULT_PERSIST_HISTORY (persistHistory configSection) |};;
  p ← get_this;
  if negb (_persistHistory p) then secrets_call (ReqDelete STORAGE_KEY)
  else storeHistory.

(** The three operations that change the list of items. *)
Inductive Mutation :=
| QueryStop (env : Env) (document : QueryDocument) (args : QueryEventArgs)
    (queryInfo : QueryInfo)
| DeleteItem (item : ItemObject)
| ClearAll.

Definition mutate (m : Mutation) : M unit :=
  match m with
  | QueryStop env document args queryInfo =>
      onQueryEvent env queryStop document args (Some queryInfo)
  | DeleteItem item => deleteItem item
  | ClearAll => clearAll
  end.

(** A query event as the host delivers it. *)
Record QueryEvent := {
  event_env : Env;
  event_type : QueryEventType;
  event_document : QueryDocument;
  event_args : QueryEventArgs;
  event_queryInfo : option QueryInfo }.

Definition deliver (e : QueryEvent) : M unit :=
  onQueryEvent (event_env e) (event_type e) (event_document e)
    (event_args e) (event_queryInfo e).

(** Deliveries that do not overlap: the events come oldest first, each
    after the listener call for the one before has settled, and the host
    does not look at what the listener's promise settles to.  Deliveries
    that overlap are [turns], below. *)
Definition dispatch (es : list QueryEvent) (w : World) : World :=
  fold_left (fun w e => snd (deliver e w)) es w.

(** The list under the storage key, as stored. *)
Definition persisted (w : World) : option string :=
  entries (secrets w) !! STORAGE_KEY.

(** The list in memory, as [storeHistory] would write it. *)
Definition in_memory (w : World) : string :=
  JSON_stringify (snd <$> _queryHistoryItems (this w)).
(** A deletion and a clearing always rewrite the list; a query-stop event
    is a mutation when it has added an item. *)
Definition took_effect (m : Mutation) (w w' : World) : Prop :=
  match m with
  | QueryStop _ _ _ _ =>
      _queryHistoryItems (this w') ≠ _queryHistoryItems (this w)
  | DeleteItem _ | ClearAll => True
  end.

(** A query-completion event that the provider captures: capture is on, the
    event is a query stop with its query info, its document is open, and the
    host resolves the connection of the document. *)
Definition captured (w : World) (e : QueryEvent) : Prop :=
  _captureEnabled (this w) = true ∧
  event_type e = queryStop ∧
  is_Some (event_queryInfo e) ∧
  (∃ d, d ∈ textDocuments (event_env e) ∧
        Uri_toString (document_uri d)
          = Uri_toString (Uri_parse (uri (event_document e)))) ∧
  ∃ c, getConnection (event_env e) (uri (event_document e)) = Resolved c.
(** The three ways in which [await this.storeHistory()] followed by the
    notification can end: nothing is persisted; the list is written; the
    write is rejected and the notification is not reached. *)
Inductive store_outcome (w1 : World) (p : Promise Error ()) (w' : World)
    : Prop :=
| store_skipped :
    _persistHistory (this w1) = false →
    p = Resolved tt →
    secrets w' = secrets w1 →
    fired w' = S (fired w1) →
    store_outcome w1 p w'
| store_written :
    _persistHistory (this w1) = true →
    p = Resolved tt →
    entries (secrets w') = <[STORAGE_KEY := in_memory w1]> (entries (secrets w1)) →
    requests (secrets w')
      = (ReqStore STORAGE_KEY (in_memory w1), None) :: requests (secrets w1) →
    fired w' = S (fired w1) →
    store_outcome w1 p w'
| store_rejected e :
    _persistHistory (this w1) = true →
    p = Rejected e →
    entries (secrets w') = entries (secrets w1) →
    requests (secrets w')
      = (ReqStore STORAGE_KEY (in_memory w1), Some e) :: requests (secrets w1) →
    fired w' = fired w1 →
    store_outcome w1 p w'.

End Provider.

(** *** A small host, for concrete runs *)

(** URIs are their own text, lines end in a line feed, and a list is written
    as its query texts between brackets. *)
Definition sample_host : Host :=
  {| Uri := string;
     Uri_parse := fun s => s;
     Uri_toString := fun u => u;
     EOL := String (Ascii.ascii_of_nat 10) "";
     JSON_stringify := fun l => "[" ++ String.concat "," (queryText <$> l) ++ "]" |}.

Definition sample_document : @TextDocument sample_host :=
  @Build_TextDocument sample_host "untitled:SQLQuery_1"
    (fun r =>
       if (startLine r =? 0)%nat then Some "SELECT 1" else Some "SELECT 2").

Definition sample_profile : ConnectionProfile :=
  {| serverName := "localhost"; databaseName := "master";
     userName := "sa"; password := "secret" |}.

Definition sample_env (clock : Date) (persist : option bool)
    : @Env sample_host :=
  @Build_Env sample_host [sample_document]
    (fun _ => Resolved (Some sample_profile))
    clock
    {| captureEnabled := None; persistHistory := persist |}.

Definition sample_queryInfo : QueryInfo :=
  {| messages := [{| message := "(1 row affected)"; isError := false |}];
     batchRanges :=
       [{| startLine := 0; startCharacter := 0;
           endLine := 0; endCharacter := 8 |}] |}.

Definition sample_queryDocument : QueryDocument :=
  {| providerId := "MSSQL"; uri := "untitled:SQLQuery_1" |}.

(** A new provider over an empty secret storage whose write requests fail
    as [fails] says. *)
Definition sample_world (fails : list (option Error)) : World :=
  {| this := initial;
     secrets := {| entries := ∅; outcomes := fails; requests := [] |};
     fired := 0;
     console := [];
     nextAddress := 0 |}.

(** A query-stop mutation and a query-stop event for the sample document,
    at a given clock reading. *)
Definition sample_stop (clock : Date) (persist : option bool)
    : @Mutation sample_host :=
  QueryStop (sample_env clock persist) sample_queryDocument ArgsUndefined
    sample_queryInfo.

Definition sample_event (clock : Date) : @QueryEvent sample_host :=
  {| event_env := sample_env clock None;
     event_type := queryStop;
     event_document := sample_queryDocument;
     event_args := ArgsUndefined;
     event_queryInfo := Some sample_queryInfo |}.

(** *** The rest of the provider *)

Section Lifecycle.
Context `{Host}.

(** [JSON.parse] of the host, on the text of a stored list: the items, or
    the error it throws. *)
Variable JSON_parse : string -> Error + list QueryHistoryItem.

(** The objects of a parsed list: one new object for each element. *)
Fixpoint new_objects (vs : list QueryHistoryItem) : M (list ItemObject) :=
  match vs with
  | [] => mret []
  | v :: vs =>
      o ← new_object v;
      os ← new_objects vs;
      mret (o :: os)
  end.

(** The callback that the constructor gives to
    [secrets.get(STORAGE_KEY).then]; an absent value and the empty string
    are falsy. *)
Definition onStoredValue (value : option string) : M unit :=
  match value with
  | Some text =>
      if String.eqb text "" then mret tt
      else
        match JSON_parse text with
        | inl e => await (Rejected e)
        | inr vs =>
            items ← new_objects vs;
            set_queryHistoryItems items;;
            fire_undefined
        end
  | None => mret tt
  end.

(** The constructor, in a world whose storage, console and addresses are
    those of [w0], up to the point where the storage has answered the
    request of [void this.updateConfigurationValues()]: the fields take
    their initial values, the emitter is new, and nobody looks at the promise
    of the call.  The value that [secrets.get] resolves to comes later, as a
    call of [onStoredValue]. *)
Definition constructor (env : Env) (w0 : World) : World :=
  (updateConfigurationValues env
     {| this := initial;
        secrets := secrets w0;
        fired := 0;
        console := console w0;
        nextAddress := nextAddress w0 |}).2.

(** [vscode.ConfigurationChangeEvent] *)
Record ConfigurationChangeEvent := {
  affectsConfiguration : string -> bool }.

(** The name of the extension's configuration section, a constant of
    [./constants]. *)
Variable QUERY_HISTORY_CONFIG_SECTION : string.

(** The listener registered with [onDidChangeConfiguration]. *)
Definition onDidChangeConfiguration (env : Env)
    (e : ConfigurationChangeEvent) : M unit :=
  if affectsConfiguration e QUERY_HISTORY_CONFIG_SECTION
  then updateConfigurationValues env
  else mret tt.

(** [update] is the host's
    [getConfiguration(...).update(CAPTURE_ENABLED_CONFIG_SECTION, v, Global)]
    as a function of the value [v]. *)
Definition setCaptureEnabled (update : bool -> Promise Error ())
    (enabled : bool) : M unit :=
  p ← get_this;
  set_this
    {| _queryHistoryItems := _queryHistoryItems p;
       _captureEnabled := enabled;
       _persistHistory := _persistHistory p |};;
  p ← get_this;
  await (update (_captureEnabled p)).

(** *** Tree items *)

Record ThemeIcon := { icon_id : string; icon_color : string }.

Definition successIcon : ThemeIcon :=
  {| icon_id := "check"; icon_color := "testing.iconPassed" |}.
Definition failedIcon : ThemeIcon :=
  {| icon_id := "error"; icon_color := "testing.iconFailed" |}.

Inductive TreeItemCollapsibleState := CollapsibleNone | Collapsed | Expanded.

Record Command := {
  command_title : string;
  command_id : string;
  command_arguments : list ItemObject }.

Record TreeItem := {
  label : string;
  collapsibleState : TreeItemCollapsibleState;
  iconPath : ThemeIcon;
  tooltip : string;
  description : string;
  command : Command }.

(** [removeNewLines] of [./utils], [Date.prototype.toLocaleString] and the
    command id of [./constants]: used by [getTreeItem], defined elsewhere. *)
Variable removeNewLines : string -> string.
Variable toLocaleString : Date -> string.
Variable ITEM_SELECTED_COMMAND_ID : string.

Definition getTreeItem (item : ItemObject) : TreeItem :=
  {| label := removeNewLines (queryText item.2);
     collapsibleState := CollapsibleNone;
     iconPath := if isSuccess item.2 then successIcon else failedIcon;
     tooltip := queryText item.2;
     description :=
       match connectionProfile item.2 with
       | Some profile =>
           serverName profile ++ "|" ++ databaseName profile ++ " "
             ++ toLocaleString (timestamp item.2)
       | None => toLocaleString (timestamp item.2)
       end;
     command :=
       {| command_title := "";
          command_id := ITEM_SELECTED_COMMAND_ID;
          command_arguments := [item] |} |}.

(** *** Any use of the provider *)

(** What can happen to a provider after its construction: the host delivers
    a query event, a stored value or a configuration change, or the user
    runs a command. *)
Inductive Action :=
| AQueryEvent (e : QueryEvent)
| AStoredValue (value : option string)
| AConfigurationChanged (env : Env) (e : ConfigurationChangeEvent)
| ADeleteItem (item : ItemObject)
| AClearAll
| ASetCaptureEnabled (update : bool -> Promise Error ()) (enabled : bool).

Definition act (a : Action) : M unit :=
  match a with
  | AQueryEvent e => deliver e
  | AStoredValue value => onStoredValue value
  | AConfigurationChanged env e => onDidChangeConfiguration env e
  | ADeleteItem item => deleteItem item
  | AClearAll => clearAll
  | ASetCaptureEnabled update enabled => setCaptureEnabled update enabled
  end.

(** The world after a sequence of actions, oldest first. *)
Definition acts (l : list Action) (w : World) : World :=
  fold_left (fun w a => (act a w).2) l w.

(** The items are distinct objects whose addresses have been allocated. *)
Definition distinct_objects (w : World) : Prop :=
  NoDup (fst <$> _queryHistoryItems (this w)) ∧
  Forall (fun a => a < nextAddress w) (fst <$> _queryHistoryItems (this w)).

(** The world after a sequence of mutations, oldest first, whatever their
    promises settle to. *)
Definition mutations (ms : list Mutation) (w : World) : World :=
  fold_left (fun w m => (mutate m w).2) ms w.

(** The same world over another secret storage. *)
Definition with_secrets (s : SecretStorage) (w : World) : World :=
  {| this := this w; secrets := s; fired := fired w;
     console := console w; nextAddress := nextAddress w |}.
End Lifecycle.

(** *** Listener calls that overlap *)

Section Interleaving.
Context `{Host}.

(** A listener call waiting at [await azdata.connection.getConnection]:
    what it has computed and will use when it resumes. *)
Record Suspended := {
  suspended_document : QueryDocument;
  suspended_queryInfo : QueryInfo;
  suspended_queryText : string }.

(** The listener up to its first [await]: it returns at once ([None]) or
    stops there, with the text of the query already read. *)
Definition onQueryEvent_start (env : Env) (type : QueryEventType)
    (document : QueryDocument) (args : QueryEventArgs)
    (queryInfo : option QueryInfo) : M (option Suspended) :=
  p ← get_this;
  match _captureEnabled p, queryInfo, decide (type = queryStop) with
  | true, Some queryInfo, left _ =>
      match
        List.find
          (fun e =>
             String.eqb (Uri_toString (document_uri e))
               (Uri_toString (Uri_parse (uri document))))
          (textDocuments env)
      with
      | None =>
          console_error
            ("Couldn't find text document with URI " ++ uri document
               ++ " for query event");;
          mret None
      | Some textDocument =>
          let queryText :=
            String.concat EOL
              ((fun r => default "" (getText textDocument r))
                 <$> batchRanges queryInfo) in
          mret (Some {| suspended_document := document;
                        suspended_queryInfo := queryInfo;
                        suspended_queryText := queryText |})
      end
  | _, _, _ => mret None
  end.

(** The listener from the moment the host answers the connection lookup;
    [env] is what the host answers then: the connection, and the clock that
    [new Date()] reads.  The list changes before the second [await], on the
    store, and the call is taken to run on from there to its end. *)
Definition onQueryEvent_resume (env : Env) (s : Suspended) : M unit :=
  connectionProfile ←
    await (getConnection env (uri (suspended_document s)));
  let isSuccess :=
    match List.find isError (messages (suspended_queryInfo s)) with
    | Some _ => false
    | None => true
    end in
  item ← new_object
    {| queryText := suspended_queryText s;
       connectionProfile := connectionProfile;
       timestamp := now env;
       isSuccess := isSuccess |};
  p ← get_this;
  set_queryHistoryItems (item :: _queryHistoryItems p);;
  storeHistory;;
  fire_undefined.

(** One turn of the event loop: an event arrives and its listener call runs
    to its first [await], or the host answers the connection lookup of the
    [n]-th waiting call, which then runs on. *)
Inductive Turn :=
| Arrives (e : QueryEvent)
| Answered (n : nat) (env : Env).

(** The world and the waiting listener calls, oldest first, after a turn.
    An answer for a call that is not waiting changes nothing. *)
Definition turn (t : Turn) (st : World * list Suspended)
    : World * list Suspended :=
  match t with
  | Arrives e =>
      match
        onQueryEvent_start (event_env e) (event_type e) (event_document e)
          (event_args e) (event_queryInfo e) st.1
      with
      | (Resolved (Some s), w) => (w, (st.2 ++ [s])%list)
      | (_, w) => (w, st.2)
      end
  | Answered n env =>
      match st.2 !! n with
      | Some s => ((onQueryEvent_resume env s st.1).2, delete n st.2)
      | None => st
      end
  end.

Definition turns (ts : list Turn) (st : World * list Suspended)
    : World * list Suspended :=
  fold_left (fun st t => turn t st) ts st.

(** The clock readings of the answers in a sequence of turns, in order. *)
Definition answer_clocks (ts : list Turn) : list Date :=
  omap (fun t => match t with
                 | Arrives _ => None
                 | Answered _ env => Some (now env)
                 end) ts.

(** The turns in which each event is answered, from its own environment,
    before the next one arrives. *)
Definition one_by_one (es : list QueryEvent) : list Turn :=
  es ≫= fun e => [Arrives e; Answered 0 (event_env e)].
End Interleaving.

(** The texts between the commas of a string. *)
Fixpoint split_commas (s : string) : list string :=
  match s with
  | EmptyString => [EmptyString]
  | String c rest =>
      if Ascii.eqb c (Ascii.ascii_of_nat 44) then EmptyString :: split_commas rest
      else
        match split_commas rest with
        | [] => [String c EmptyString]
        | first :: others => String c first :: others
        end
  end.

(** A parser for the sample host: it reads a bracketed list of query texts
    back as items without a connection, stamped [0] and successful, and
    throws on a text without brackets. *)
Definition sample_parse (text : string) : Error + list QueryHistoryItem :=
  if String.eqb text "[]" then inr []
  else if String.prefix "[" text
          && String.eqb (String.substring (String.length text - 1) 1 text) "]"
  then
    inr ((fun t => {| queryText := t; connectionProfile := None;
                      timestamp := 0%Z; isSuccess := true |})
           <$> split_commas (String.substring 1 (String.length text - 2) text))
  else inl "SyntaxError: Unexpected token".

(** A world with two items in its list, over a storage that fails as
    [fails] says. *)
Definition sample_item (text : string) : QueryHistoryItem :=
  {| queryText := text; connectionProfile := None;
     timestamp := 0%Z; isSuccess := true |}.

Definition sample_history (fails : list (option Error)) (persist : bool)
    : World :=
  {| this :=
       {| _queryHistoryItems :=
            [(1, sample_item "SELECT 2"); (0, sample_item "SELECT 1")];
          _captureEnabled := true;
          _persistHistory := persist |};
     secrets := {| entries := ∅; outcomes := fails; requests := [] |};
     fired := 0;
     console := [];
     nextAddress := 2 |}.

(** An environment like [sample_env] whose connection lookup is rejected,
    and its query-stop event. *)
Definition sample_env_offline (clock : Date) : @Env sample_host :=
  @Build_Env sample_host [sample_document]
    (fun _ => Rejected "connection lost")
    clock
    {| captureEnabled := None; persistHistory := None |}.

Definition sample_event_offline (clock : Date) : @QueryEvent sample_host :=
  {| event_env := sample_env_offline clock;
     event_type := queryStop;
     event_document := sample_queryDocument;
     event_args := ArgsUndefined;
     event_queryInfo := Some sample_queryInfo |}.

(** Stand-ins for [removeNewLines] and [toLocaleString]: line feeds become
    spaces, and a date is shown as its number of seconds. *)
Fixpoint sample_removeNewLines (s : string) : string :=
  match s with
  | EmptyString => EmptyString
  | String c rest =>
      String (if Ascii.eqb c (Ascii.ascii_of_nat 10) then Ascii.ascii_of_nat 32
              else c)
        (sample_removeNewLines rest)
  end.

Definition sample_toLocaleString (d : Date) : string :=
  if (d <? 1000)%Z then "0 s" else if (d <? 2000)%Z then "1 s" else "later".

(** A second query of the sample document, on its line 1. *)
Definition sample_queryInfo_second : QueryInfo :=
  {| messages := [{| message := "(1 row affected)"; isError := false |}];
     batchRanges :=
       [{| startLine := 1; startCharacter := 0;
           endLine := 1; endCharacter := 8 |}] |}.

Definition sample_event_second (clock : Date) : @QueryEvent sample_host :=
  {| event_env := sample_env clock None;
     event_type := queryStop;
     event_document := sample_queryDocument;
     event_args := ArgsUndefined;
     event_queryInfo := Some sample_queryInfo_second |}.

End QueryHistory.

(** * Properties *)

(** ** The DacFx test double never fails and hands out one shared record *)

Section DacFxFacts.
Import DacFx.

Lemma new_shared_ok st : shared_ok (new st).1 (new st).2.
Proof.
  split; simpl; [lia|].
  eexists. split; [apply lookup_insert_eq|]. done.
Qed.

Lemma deref_write_eq l v st :
  deref (write_operationId l v st) l = set_operationId v <$> deref st l.
Proof. unfold deref, write_operationId; simpl. apply lookup_alter_eq. Qed.

Lemma deref_alloc_old o st l :
  l < next st → deref (alloc o st).2 l = deref st l.
Proof.
  intros Hl. unfold deref, alloc; simpl.
  apply lookup_insert_ne. lia.
Qed.

Lemma deref_alloc_new o st : deref (alloc o st).2 (alloc o st).1 = Some o.
Proof. unfold deref, alloc; simpl. apply lookup_insert_eq. Qed.

(** What one call does, from a state in which the record is in place. *)
Lemma invoke_spec this c st :
  shared_ok this st →
  shared_ok this (invoke this c st).2 ∧
  ∃ l o,
    (invoke this c st).1 = Resolved l ∧
    deref (invoke this c st).2 l = Some o ∧
    success o = true ∧ errorMessage o = "" ∧
    operationId o = resolved_operationId (method_of c) ∧
    (shares (method_of c) = true → l = dacfxResult this) ∧
    ∃ s, deref (invoke this c st).2 (dacfxResult this) = Some s ∧
         ∀ k, assigned (method_of c) = Some k → operationId s = Some k.
Proof.
  intros [Hlt (o & Ho & Hs & He)].
  destruct c; simpl;
    unfold exportBacpac, importBacpac, extractDacpac,
      createProjectFromDatabase, deployDacpac, generateDeployScript,
      generateDeployPlan, getOptionsFromProfile, validateStreamingJob;
    simpl.
  1-6: (split;
    [ split; [done|]; eexists; rewrite deref_write_eq, Ho; simpl; done
    | do 2 eexists; rewrite deref_write_eq, Ho; simpl;
      repeat split; try done;
      eexists; split; [done|]; simpl; congruence ]).
  - split.
    + split; [simpl; lia|].
      exists (set_operationId generateDeployPlanId o).
      unfold deref; simpl.
      rewrite lookup_insert_ne by lia. rewrite lookup_alter_eq.
      unfold deref in Ho. rewrite Ho. done.
    + do 2 eexists. unfold deref; simpl. rewrite lookup_insert_eq.
      repeat split; try done.
      exists (set_operationId generateDeployPlanId o).
      rewrite lookup_insert_ne by lia. rewrite lookup_alter_eq.
      unfold deref in Ho. rewrite Ho. split; [done|]. simpl. congruence.
  - split.
    + split; [simpl; lia|].
      exists o. unfold deref; simpl.
      rewrite lookup_insert_ne by lia. done.
    + do 2 eexists. unfold deref; simpl. rewrite lookup_insert_eq.
      repeat split; try done.
      exists o. rewrite lookup_insert_ne by lia. split; [done|]. done.
  - split.
    + split; [simpl; lia|].
      exists (set_operationId validateStreamingJobId o).
      unfold deref; simpl.
      rewrite lookup_insert_ne by lia. rewrite lookup_alter_eq.
      unfold deref in Ho. rewrite Ho. done.
    + do 2 eexists. unfold deref; simpl. rewrite lookup_insert_eq.
      repeat split; try done.
      exists (set_operationId validateStreamingJobId o).
      rewrite lookup_insert_ne by lia. rewrite lookup_alter_eq.
      unfold deref in Ho. rewrite Ho. split; [done|]. simpl. congruence.
Qed.

Lemma run_shared_ok this cs st :
  shared_ok this st → shared_ok this (run this cs st).
Proof.
  revert st. induction cs as [|c cs IH]; intros st Hok; [done|].
  simpl. apply IH. by apply invoke_spec.
Qed.

(** The state in which a call finds the instance: constructed in some store,
    then used for any sequence of earlier calls. *)
Lemma used_shared_ok st0 cs :
  shared_ok (new st0).1 (run (new st0).1 cs (new st0).2).
Proof. apply run_shared_ok, new_shared_ok. Qed.

(** C3, as amended.  After construction and any earlier calls, a call of any
    method with any arguments resolves with a record whose [operationId]
    depends on the method alone: the constant the claim lists for
    [exportBacpac], [importBacpac], [extractDacpac], [deployDacpac],
    [generateDeployScript] and [generateDeployPlan]; ['import bacpac'] also
    for [createProjectFromDatabase]; and no [operationId] property at all for
    [getOptionsFromProfile] and [validateStreamingJob]. *)
Theorem dacfx_operationId_by_method (st0 : Store) (cs : list Call) (c : Call) :
  let this := (new st0).1 in
  let r := invoke this c (run this cs (new st0).2) in
  ∃ l o,
    r.1 = Resolved l ∧ deref r.2 l = Some o ∧
    operationId o =
      match method_of c with
      | MExportBacpac => Some "export bacpac"
      | MImportBacpac => Some "import bacpac"
      | MExtractDacpac => Some "extract dacpac"
      | MCreateProjectFromDatabase => Some "import bacpac"
      | MDeployDacpac => Some "deploy dacpac"
      | MGenerateDeployScript => Some "generate script"
      | MGenerateDeployPlan => Some "generate deploy plan"
      | MGetOptionsFromProfile => None
      | MValidateStreamingJob => None
      end.
Proof.
  intros this r.
  destruct (invoke_spec this c _ (used_shared_ok st0 cs))
    as [_ (l & o & Hr & Hd & _ & _ & Hop & _)].
  exists l, o. repeat split; [done..|].
  rewrite Hop. by destruct c.
Qed.

(** C3, as stated, fails for [validateStreamingJob]: on a fresh instance the
    call assigns ['validate streaming job'] to the instance's own record but
    resolves with a new record that has no [operationId]. *)
Lemma dacfx_validateStreamingJob_has_no_operationId :
  let st0 := {| heap := ∅; next := 0 |} in
  let this := (new st0).1 in
  let r := invoke this (ValidateStreamingJob "job.dacpac" "CREATE STREAMING JOB j")
             (new st0).2 in
  ∃ l o s,
    r.1 = Resolved l ∧ deref r.2 l = Some o ∧
    operationId o = None ∧
    operationId o ≠ Some validateStreamingJobId ∧
    deref r.2 (dacfxResult this) = Some s ∧
    operationId s = Some validateStreamingJobId.
Proof.
  simpl. do 3 eexists.
  split; [reflexivity|].
  split; [vm_compute; reflexivity|].
  split; [reflexivity|].
  split; [discriminate|].
  split; vm_compute; reflexivity.
Qed.

(** C4.  After construction and any earlier calls, a call of any method with
    any arguments resolves (it does not reject), and the record it resolves
    with has [success] true and an empty [errorMessage]. *)
Theorem dacfx_never_reports_failure (st0 : Store) (cs : list Call) (c : Call) :
  let this := (new st0).1 in
  let r := invoke this c (run this cs (new st0).2) in
  ∃ l o,
    r.1 = Resolved l ∧ deref r.2 l = Some o ∧
    success o = true ∧ errorMessage o = "".
Proof.
  intros this r.
  destruct (invoke_spec this c _ (used_shared_ok st0 cs))
    as [_ (l & o & Hr & Hd & Hs & He & _)].
  by exists l, o.
Qed.

End DacFxFacts.

(** ** The recommendation list is the mapped configuration list *)

Section RecommendationFacts.
Import Recommendations.
Context `{Nls}.

Lemma perform_id o this : perform o this = this.
Proof. by destruct o. Qed.

Lemma run_id os this : run os this = this.
Proof.
  induction os as [|o os IH]; simpl; [done|].
  by rewrite perform_id.
Qed.

(** C5.  For every product configuration and every later use of the
    instance (reads of the getter, calls of [doActivate]), the list has the
    length of [recommendedExtensions] and its i-th record has the i-th
    entry as [extensionId], reason [Application] and source ['application'];
    the instance is the one the constructor built, and [doActivate] resolves
    without changing it. *)
Theorem static_recommendations_fixed (productService : IProductService)
    (os : list Op) :
  let this := run os (constructor productService) in
  this = constructor productService ∧
  length (recommendations this)
    = length (recommendedExtensions productService) ∧
  (∀ i r,
     recommendedExtensions productService !! i = Some r →
     ∃ x, recommendations this !! i = Some x ∧
          extensionId x = r ∧
          reasonId (reason x) = Application ∧
          source x = "application") ∧
  doActivate this = (Resolved tt, this).
Proof.
  intros this. unfold this. rewrite run_id.
  split_and!; try done.
  - unfold recommendations, constructor; simpl. apply length_map.
  - intros i r Hr. unfold recommendations, constructor; simpl.
    eexists. split.
    + change (@map) with (@fmap list _). rewrite list_lookup_fmap, Hr. done.
    + done.
Qed.

End RecommendationFacts.

(** ** The query history: what the listener and the commands do *)

Section QueryHistoryFacts.
Import QueryHistory.
Context `{Host}.

Ltac unfold_M :=
  unfold storeHistory, set_queryHistoryItems, mbind, M_bind, mret, M_ret,
    get_this, set_this, new_object, console_error, fire_undefined,
    secrets_call, await in *.

Lemma find_no_match {A} (f : A → bool) (l : list A) :
  (∀ x, x ∈ l → f x = false) → List.find f l = None.
Proof.
  induction l as [|a l IH]; intros Hl; simpl; [done|].
  rewrite (Hl a) by apply list_elem_of_here.
  apply IH. intros x Hx. apply Hl. by apply list_elem_of_further.
Qed.

Lemma find_match {A} (f : A → bool) (l : list A) :
  (∃ x, x ∈ l ∧ f x = true) → ∃ y, List.find f l = Some y.
Proof.
  induction l as [|a l IH]; intros (x & Hx & Hf); simpl.
  - by apply elem_of_nil in Hx.
  - destruct (f a) eqn:Ha; [by eexists|].
    apply IH. apply elem_of_cons in Hx as [->|Hx]; [congruence|by exists x].
Qed.

(** C9.  When capture is disabled, or the event is not a query stop, or no
    query info comes with it, the listener resolves and leaves the whole
    world as it was: the list in memory, the secret storage (no request is
    made) and the count of tree-data-change notifications. *)
Theorem onQueryEvent_ignores (env : Env) (type : QueryEventType)
    (document : QueryDocument) (args : QueryEventArgs)
    (queryInfo : option QueryInfo) (w : World) :
  _captureEnabled (this w) = false ∨ type ≠ queryStop ∨ queryInfo = None →
  onQueryEvent env type document args queryInfo w = (Resolved tt, w).
Proof.
  intros Hskip. unfold onQueryEvent. unfold_M. simpl.
  destruct (_captureEnabled (this w)); [|done].
  destruct queryInfo as [qi|]; [|done].
  destruct (decide (type = queryStop)); [|done].
  by destruct Hskip as [?|[?|?]].
Qed.

(** C10.  [getChildren] returns the list of the instance whatever element
    it is given: the same for no element and for any item. *)
Theorem getChildren_whole_list (w : World) (element : option ItemObject)
    (item : ItemObject) :
  getChildren element w = _queryHistoryItems (this w) ∧
  getChildren (Some item) w = getChildren None w.
Proof. by split. Qed.

(** C6.  A query-stop event whose document URI is the URI of no open text
    document makes the listener resolve; the instance, the secret storage
    (no request is made), the notification count and the object addresses
    are as before, and the only change is one line on the error console,
    written when capture is enabled and the event has its query info. *)
Theorem onQueryEvent_document_missing (env : Env) (document : QueryDocument)
    (args : QueryEventArgs) (queryInfo : option QueryInfo) (w : World) :
  (∀ d, d ∈ textDocuments env →
        Uri_toString (document_uri d)
          ≠ Uri_toString (Uri_parse (uri document))) →
  ∃ w',
    onQueryEvent env queryStop document args queryInfo w = (Resolved tt, w') ∧
    this w' = this w ∧ secrets w' = secrets w ∧ fired w' = fired w ∧
    nextAddress w' = nextAddress w ∧
    console w' =
      if _captureEnabled (this w) && bool_decide (is_Some queryInfo)
      then ("Couldn't find text document with URI " ++ uri document
              ++ " for query event") :: console w
      else console w.
Proof.
  intros Hnone. unfold onQueryEvent. unfold_M. simpl.
  destruct (_captureEnabled (this w)); simpl; [|by exists w].
  destruct queryInfo as [qi|]; simpl; [|by exists w].
  rewrite find_no_match.
  - eexists. split; [reflexivity|]. simpl. done.
  - intros d Hd. apply String.eqb_neq. by apply Hnone.
Qed.

(** *** Storing, then notifying *)

Lemma store_then_fire (w1 : World) p w' :
  (storeHistory;; fire_undefined) w1 = (p, w') →
  this w' = this w1 ∧ nextAddress w' = nextAddress w1 ∧
  store_outcome w1 p w'.
Proof.
  unfold_M. simpl. unfold in_memory.
  destruct (_persistHistory (this w1)) eqn:Hp; simpl.
  - unfold secrets_request.
    destruct (head (outcomes (secrets w1))) as [[e|]|] eqn:Ho; simpl;
      intros [= <- <-]; simpl; split_and!; try done.
    + by eapply store_rejected.
    + by eapply store_written.
    + by eapply store_written.
  - intros [= <- <-]; simpl; split_and!; try done.
    by eapply store_skipped.
Qed.

(** Every mutation either ends before it touches the list, or replaces the
    list and then stores and notifies. *)
Lemma mutate_cases (m : Mutation) (w : World) p w' :
  mutate m w = (p, w') →
  (this w' = this w ∧ secrets w' = secrets w ∧ fired w' = fired w ∧
   ¬ took_effect m w w') ∨
  ∃ w1,
    secrets w1 = secrets w ∧ fired w1 = fired w ∧
    _persistHistory (this w1) = _persistHistory (this w) ∧
    (storeHistory;; fire_undefined) w1 = (p, w').
Proof.
  destruct m as [env document args queryInfo|item|]; simpl.
  - unfold onQueryEvent.
    unfold mbind at 1. unfold M_bind at 1. unfold get_this at 1.
    destruct (_captureEnabled (this w)); simpl;
      [|intros [= <- <-]; left; split_and!; try done; by intros []].
    destruct (List.find _ (textDocuments env)) as [textDocument|].
    + unfold mbind at 1. unfold M_bind at 1. unfold await at 1.
      destruct (getConnection env (uri document)) as [c|e];
        [|intros [= <- <-]; left; split_and!; try done; by intros []].
      unfold mbind at 1. unfold M_bind at 1. unfold new_object at 1.
      unfold mbind at 1. unfold M_bind at 1. unfold get_this at 1.
      unfold mbind at 1. unfold M_bind at 1.
      unfold set_queryHistoryItems at 1.
      unfold mbind at 1. unfold M_bind at 1. unfold get_this at 1.
      unfold set_this at 1. simpl.
      intros Hrun. right. eexists. split_and!; [..|exact Hrun]; done.
    + unfold console_error. intros [= <- <-]. left.
      split_and!; try done. by intros [].
  - unfold deleteItem.
    unfold mbind at 1. unfold M_bind at 1. unfold get_this at 1.
    unfold mbind at 1. unfold M_bind at 1.
    unfold set_queryHistoryItems at 1.
    unfold mbind at 1. unfold M_bind at 1. unfold get_this at 1.
    unfold set_this at 1. simpl.
    intros Hrun. right. eexists. split_and!; [..|exact Hrun]; done.
  - unfold clearAll.
    unfold mbind at 1. unfold M_bind at 1.
    unfold set_queryHistoryItems at 1.
    unfold mbind at 1. unfold M_bind at 1. unfold get_this at 1.
    unfold set_this at 1. simpl.
    intros Hrun. right. eexists. split_and!; [..|exact Hrun]; done.
Qed.


(** C7.  If, during a mutation, a write to the secret storage is rejected,
    then the mutation's own promise is rejected with the same error, that
    write is the only request the mutation has made to the storage (it is
    not repeated), and no notification is fired. *)
Theorem store_failure_propagates (m : Mutation) (w w' : World)
    (p : Promise Error ()) (made : list (SecretRequest * option Error))
    (key value : string) (e : Error) :
  mutate m w = (p, w') →
  requests (secrets w') = (made ++ requests (secrets w))%list →
  (ReqStore key value, Some e) ∈ made →
  p = Rejected e ∧
  made = [(ReqStore key value, Some e)] ∧
  fired w' = fired w.
Proof.
  intros Hrun Hmade Hin.
  assert (∀ l, (made ++ requests (secrets w) = l ++ requests (secrets w))%list
               → made = l) as Hinv
    by (intros l; apply app_inv_tail).
  destruct (mutate_cases m w _ _ Hrun) as [(_ & Hs & _ & _)|Hstore].
  { rewrite Hs in Hmade. symmetry in Hmade.
    rewrite (Hinv [] Hmade) in Hin. by apply elem_of_nil in Hin. }
  destruct Hstore as (w1 & Hs1 & Hf1 & _ & Hrun1).
  apply store_then_fire in Hrun1 as (_ & _ & Hout).
  destruct Hout as [_ _ Hs _|_ _ _ Hreq _|e' _ Hrej _ Hreq Hfired].
  - rewrite Hs, Hs1 in Hmade. symmetry in Hmade.
    rewrite (Hinv [] Hmade) in Hin. by apply elem_of_nil in Hin.
  - rewrite Hreq, Hs1 in Hmade. symmetry in Hmade.
    rewrite (Hinv [_] Hmade) in Hin.
    apply list_elem_of_singleton in Hin. congruence.
  - rewrite Hreq, Hs1 in Hmade. symmetry in Hmade.
    rewrite (Hinv [_] Hmade) in Hin |- *.
    apply list_elem_of_singleton in Hin. injection Hin as <- <- <-.
    split_and!; congruence.
Qed.

(** *** Arrival order *)

(** A captured event puts one new object, stamped with the clock of the
    event, in front of the list, whether or not the list can be stored. *)
Lemma deliver_captured (e : QueryEvent) (w : World) :
  captured w e →
  ∃ p w' v,
    deliver e w = (p, w') ∧
    _queryHistoryItems (this w')
      = (nextAddress w, v) :: _queryHistoryItems (this w) ∧
    timestamp v = now (event_env e) ∧
    nextAddress w' = S (nextAddress w) ∧
    _captureEnabled (this w') = _captureEnabled (this w).
Proof.
  intros (Hcap & Htype & [qi Hqi] & (d & Hd & Huri) & c & Hconn).
  unfold deliver, onQueryEvent.
  unfold mbind at 1. unfold M_bind at 1. unfold get_this at 1.
  rewrite Hcap, Hqi, Htype. simpl.
  destruct (find_match
              (fun x => String.eqb (Uri_toString (document_uri x))
                          (Uri_toString (Uri_parse (uri (event_document e)))))
              (textDocuments (event_env e))) as [textDocument ->].
  { exists d. split; [done|]. by apply String.eqb_eq. }
  unfold mbind at 1. unfold M_bind at 1. unfold await at 1.
  rewrite Hconn.
  unfold mbind at 1. unfold M_bind at 1. unfold new_object at 1.
  unfold mbind at 1. unfold M_bind at 1. unfold get_this at 1.
  unfold mbind at 1. unfold M_bind at 1.
  unfold set_queryHistoryItems at 1.
  unfold mbind at 1. unfold M_bind at 1. unfold get_this at 1.
  unfold set_this at 1. simpl.
  match goal with
  | |- context [(storeHistory;; fire_undefined) ?w1] =>
      destruct ((storeHistory;; fire_undefined) w1) as [p w'] eqn:Hrun
  end.
  apply store_then_fire in Hrun as (Hthis & Hnext & _). simpl in *.
  do 3 eexists. split; [reflexivity|].
  rewrite Hthis, Hnext. simpl. by split_and!.
Qed.

Lemma captured_later (e : QueryEvent) (w w' : World) :
  _captureEnabled (this w') = _captureEnabled (this w) →
  captured w e → captured w' e.
Proof. intros Heq (Hcap & Hrest). split; [congruence|done]. Qed.

(** Deliveries that do not overlap: delivering captured query-completion
    events one after the other puts their items in front of the items that
    were there, which keep their order, the item of a later event before the
    item of an earlier one. *)
Lemma history_newest_first (es : list QueryEvent) (w : World) :
  Forall (captured w) es →
  ∃ news : list ItemObject,
    _queryHistoryItems (this (dispatch es w))
      = (rev news ++ _queryHistoryItems (this w))%list ∧
    (timestamp ∘ snd) <$> news = (now ∘ event_env) <$> es ∧
    fst <$> news = seq (nextAddress w) (length es).
Proof.
  revert w. induction es as [|e es IH]; intros w Hall.
  - by exists [].
  - apply Forall_cons in Hall as [He Hes].
    destruct (deliver_captured e w He)
      as (p & w' & v & Hrun & Hitems & Hstamp & Hnext & Hcap).
    destruct (IH w') as (news & Hnews & Hstamps & Haddrs).
    { eapply Forall_impl; [exact Hes|].
      intros e' He'. by eapply captured_later. }
    exists ((nextAddress w, v) :: news).
    change (dispatch (e :: es) w) with (dispatch es (deliver e w).2).
    rewrite Hrun. cbn [snd]. split_and!.
    + rewrite Hnews, Hitems. cbn [rev]. by rewrite <- app_assoc.
    + rewrite !fmap_cons. f_equal; [exact Hstamp|exact Hstamps].
    + rewrite fmap_cons. cbn [length seq fst]. f_equal.
      by rewrite Haddrs, Hnext.
Qed.

End QueryHistoryFacts.

(** ** Concrete runs over the sample host *)

Section QueryHistoryRuns.
Import QueryHistory.
#[local] Existing Instance sample_host.



Lemma store_failure_propagates_witness :
  let w := sample_world [Some "storage unavailable"] in
  let failed := (ReqStore STORAGE_KEY "[]", Some "storage unavailable") in
  ∃ p w',
    mutate ClearAll w = (p, w') ∧
    requests (secrets w') = [failed] ∧
    p = Rejected "storage unavailable" ∧
    fired w' = 0.
Proof.
  intros w failed.
  exists (mutate ClearAll w).1, (mutate ClearAll w).2.
  split; [vm_compute; reflexivity|].
  split; [vm_compute; reflexivity|].
  destruct (store_failure_propagates ClearAll w (mutate ClearAll w).2
              (mutate ClearAll w).1 [failed]
              STORAGE_KEY "[]" "storage unavailable")
    as (Hp & _ & Hfired).
  - vm_compute. reflexivity.
  - vm_compute. reflexivity.
  - apply list_elem_of_here.
  - split; [exact Hp|exact Hfired].
Defined.

Lemma sample_event_captured clock : captured (sample_world []) (sample_event clock).
Proof.
  split_and!; try reflexivity.
  - by eexists.
  - exists sample_document. split; [apply list_elem_of_here|reflexivity].
  - by eexists.
Qed.

Lemma onQueryEvent_ignores_witness :
  onQueryEvent (sample_env 1000%Z None) queryStart sample_queryDocument
    ArgsUndefined (Some sample_queryInfo) (sample_world [])
  = (Resolved tt, sample_world []).
Proof.
  apply onQueryEvent_ignores. right. left. discriminate.
Defined.

Lemma onQueryEvent_document_missing_witness :
  ∃ w',
    onQueryEvent (sample_env 1000%Z None) queryStop
      {| providerId := "MSSQL"; uri := "untitled:SQLQuery_2" |}
      ArgsUndefined (Some sample_queryInfo) (sample_world [])
    = (Resolved tt, w') ∧
    this w' = this (sample_world []) ∧
    secrets w' = secrets (sample_world []) ∧
    fired w' = 0 ∧
    nextAddress w' = 0 ∧
    console w' =
      ["Couldn't find text document with URI untitled:SQLQuery_2 for query event"].
Proof.
  apply (onQueryEvent_document_missing (sample_env 1000%Z None)
           {| providerId := "MSSQL"; uri := "untitled:SQLQuery_2" |}
           ArgsUndefined (Some sample_queryInfo) (sample_world [])).
  intros d Hd. apply list_elem_of_singleton in Hd. subst d.
  simpl. discriminate.
Defined.

End QueryHistoryRuns.

(** ** More on the DacFx test double: who sees which write *)

Section DacFxSharing.
Import DacFx.

(** A call changes the instance's record by its assignment alone. *)
Lemma invoke_shared_record this c st o :
  shared_ok this st →
  deref st (dacfxResult this) = Some o →
  deref (invoke this c st).2 (dacfxResult this)
    = Some (match assigned (method_of c) with
            | Some k => set_operationId k o
            | None => o
            end).
Proof.
  intros [Hlt _] Ho. unfold deref in *.
  destruct c; simpl;
    rewrite ?lookup_insert_ne by lia;
    rewrite ?lookup_alter_eq, Ho; done.
Qed.

(** A call leaves every other allocated object as it is, and allocates
    upwards only. *)
Lemma invoke_frame this c st (l : loc) :
  (l < next st)%nat → l ≠ dacfxResult this →
  deref (invoke this c st).2 l = deref st l ∧
  (next st ≤ next (invoke this c st).2)%nat.
Proof.
  intros Hlt Hne. unfold deref.
  destruct c; simpl;
    rewrite ?lookup_insert_ne by lia;
    rewrite ?lookup_alter_ne by done; split; (done || lia).
Qed.

Lemma run_frame this cs st (l : loc) :
  (l < next st)%nat → l ≠ dacfxResult this →
  deref (run this cs st) l = deref st l.
Proof.
  revert st. induction cs as [|c cs IH]; intros st Hlt Hne; [done|].
  change (run this (c :: cs) st) with (run this cs (invoke this c st).2).
  destruct (invoke_frame this c st l Hlt Hne) as [Heq Hle].
  rewrite IH; [done|lia|done].
Qed.

Lemma run_last_assigned this cs st o v :
  shared_ok this st →
  deref st (dacfxResult this) = Some o →
  operationId o = Some v →
  ∃ o',
    deref (run this cs st) (dacfxResult this) = Some o' ∧
    operationId o' = Some (last_assigned v cs).
Proof.
  revert st o v. induction cs as [|c cs IH]; intros st o v Hok Ho Hv.
  - by exists o.
  - pose proof (invoke_shared_record this c st o Hok Ho) as Hstep.
    destruct (invoke_spec this c st Hok) as [Hok' _].
    apply (IH _ _ (default v (assigned (method_of c))) Hok' Hstep).
    by destruct (assigned (method_of c)).
Qed.

(** X1.  After construction and any sequence of calls, the instance's record
    holds the constant of the latest call that assigns one, and ['test'] if
    there has been none: calls of [getOptionsFromProfile] never change it. *)
Theorem dacfx_last_writer_wins (st0 : Store) (cs : list Call) :
  let this := (new st0).1 in
  ∃ o,
    deref (run this cs (new st0).2) (dacfxResult this) = Some o ∧
    operationId o = Some (last_assigned "test" cs).
Proof.
  intros this.
  destruct (run_last_assigned this cs (new st0).2
              {| success := true; operationId := Some "test";
                 errorMessage := ""; report := None;
                 deploymentOptions := None |} "test") as (o & Ho & Hop); [apply new_shared_ok| |done|by exists o].
  apply lookup_insert_eq.
Qed.

Lemma run_next_mono this cs st : (next st ≤ next (run this cs st))%nat.
Proof.
  revert st. induction cs as [|c cs IH]; intros st; [done|].
  change (run this (c :: cs) st) with (run this cs (invoke this c st).2).
  etrans; [|apply IH]. destruct c; simpl; lia.
Qed.

(** The reference a call resolves with: the instance's record, or the first
    unused address. *)
Lemma invoke_reference this c st :
  (invoke this c st).1
    = Resolved (if shares (method_of c) then dacfxResult this else next st).
Proof. by destruct c. Qed.

(** X2.  The record that [generateDeployPlan], [getOptionsFromProfile] or
    [validateStreamingJob] resolves with is a new object: it is not the
    instance's record, no later call changes it, and no later call resolves
    with it. *)
Theorem dacfx_fresh_results_are_stable (st0 : Store) (cs later : list Call)
    (c c' : Call) :
  let this := (new st0).1 in
  let r := invoke this c (run this cs (new st0).2) in
  shares (method_of c) = false →
  ∃ l o,
    r.1 = Resolved l ∧ l ≠ dacfxResult this ∧
    deref r.2 l = Some o ∧
    deref (run this later r.2) l = Some o ∧
    deref (invoke this c' (run this later r.2)).2 l = Some o ∧
    (invoke this c' (run this later r.2)).1 ≠ Resolved l.
Proof.
  intros this r Hfresh.
  pose proof (used_shared_ok st0 cs) as Hok. fold this in Hok.
  set (st := run this cs (new st0).2) in *.
  destruct Hok as [Hlt Hrec].
  assert (∃ o, deref r.2 (next st) = Some o ∧ (next st < next r.2)%nat)
    as (o & Ho & Hnext).
  { unfold r, deref. destruct c; try discriminate; simpl;
      eexists; rewrite lookup_insert_eq; split; (done || lia). }
  pose proof (run_next_mono this later r.2) as Hmono.
  exists (next st), o. split_and!.
  - unfold r. by rewrite invoke_reference, Hfresh.
  - lia.
  - done.
  - rewrite run_frame; [done|done|lia].
  - destruct (invoke_frame this c' (run this later r.2) (next st)) as [-> _];
      [lia|lia|].
    rewrite run_frame; [done|done|lia].
  - rewrite invoke_reference. intros [= Heq]. revert Heq.
    destruct (shares (method_of c')); intros Heq; simpl in Hlt; lia.
Qed.

Lemma dacfx_fresh_results_are_stable_witness :
  let st0 := {| heap := ∅; next := 0 |} in
  let this := (new st0).1 in
  let c := GenerateDeployPlan "db.dacpac" "db" "uri" execute in
  let c' := GenerateDeployPlan "other.dacpac" "db" "uri" script in
  let later := [ExportBacpac "db" "db.bacpac" "uri" execute] in
  let r := invoke this c (run this [] (new st0).2) in
  ∃ l o,
    r.1 = Resolved l ∧ l ≠ dacfxResult this ∧
    deref r.2 l = Some o ∧
    deref (run this later r.2) l = Some o ∧
    deref (invoke this c' (run this later r.2)).2 l = Some o ∧
    (invoke this c' (run this later r.2)).1 ≠ Resolved l.
Proof.
  exact (dacfx_fresh_results_are_stable {| heap := ∅; next := 0 |} []
           [ExportBacpac "db" "db.bacpac" "uri" execute]
           (GenerateDeployPlan "db.dacpac" "db" "uri" execute)
           (GenerateDeployPlan "other.dacpac" "db" "uri" script)
           eq_refl).
Defined.

(** X3.  Two instances constructed in one store have different records:
    whatever is called on the first, the record of the second still holds
    ['test'], and a call on the second then resolves as on a new instance. *)
Theorem dacfx_instances_do_not_interfere (st0 : Store) (cs : list Call) :
  let a := (new st0).1 in
  let b := (new (new st0).2).1 in
  let st := (new (new st0).2).2 in
  dacfxResult a ≠ dacfxResult b ∧
  ∃ o,
    deref (run a cs st) (dacfxResult b) = Some o ∧
    operationId o = Some "test" ∧
    success o = true ∧ errorMessage o = "".
Proof.
  intros a b st. split; [simpl; lia|].
  eexists. rewrite run_frame.
  - unfold deref, st. simpl. rewrite lookup_insert_eq. by split_and!.
  - simpl. lia.
  - simpl. lia.
Qed.

(** C8, as amended.  Let an earlier call be of [exportBacpac],
    [importBacpac], [extractDacpac], [createProjectFromDatabase],
    [deployDacpac] or [generateDeployScript], and let a later call be of any
    method, with any calls before and in between.  The earlier call resolves
    with the reference held in the instance's [dacfxResult], and so does the
    later one when it is one of these six methods.  Read through the
    reference the earlier call returned, the [operationId] after the later
    call is the later method's constant when that method assigns one, and is
    what it was just before the later call when the method assigns none
    ([getOptionsFromProfile]); with no call in between, what it was just
    before is the earlier method's constant.  After a later method that
    assigns, it is the earlier method's constant exactly when the two
    methods assign the same constant. *)
Theorem dacfx_result_is_shared (st0 : Store) (cs mid : list Call)
    (c1 c2 : Call) :
  let this := (new st0).1 in
  let r1 := invoke this c1 (run this cs (new st0).2) in
  let before := run this mid r1.2 in
  let r2 := invoke this c2 before in
  shares (method_of c1) = true →
  ∃ l1 o' o,
    r1.1 = Resolved l1 ∧ l1 = dacfxResult this ∧
    (shares (method_of c2) = true → r2.1 = Resolved l1) ∧
    deref before l1 = Some o' ∧
    deref r2.2 l1 = Some o ∧
    operationId o =
      match assigned (method_of c2) with
      | Some k => Some k
      | None => operationId o'
      end ∧
    (mid = [] → operationId o' = assigned (method_of c1)) ∧
    (is_Some (assigned (method_of c2)) →
     operationId o = assigned (method_of c1)
     ↔ assigned (method_of c2) = assigned (method_of c1)).
Proof.
  intros this r1 before r2 H1.
  destruct (invoke_spec this c1 _ (used_shared_ok st0 cs))
    as [Hok1 (l1 & o1 & Hr1 & _ & _ & _ & _ & Hl1 & s & Hs & Hk)].
  specialize (Hl1 H1). subst l1.
  pose proof (run_shared_ok this mid _ Hok1) as Hok.
  destruct Hok as [Hlt (o' & Ho' & Hsuccess)].
  pose proof (invoke_shared_record this c2 before o'
                (conj Hlt (ex_intro _ o' (conj Ho' Hsuccess))) Ho') as Hafter.
  exists (dacfxResult this), o'.
  eexists. split_and!; [done|done| |done|exact Hafter| | |].
  - intros H2. unfold r2. by rewrite invoke_reference, H2.
  - by destruct (assigned (method_of c2)).
  - intros ->.
    assert (Some o' = Some s) as [= ->]
      by (rewrite <- Ho', <- Hs; reflexivity).
    destruct (assigned (method_of c1)) as [k|] eqn:Hk1; [by apply Hk|].
    by destruct c1.
  - intros [k Hk2]. rewrite Hk2. simpl. done.
Qed.

Lemma dacfx_result_is_shared_witness :
  let st0 := {| heap := ∅; next := 0 |} in
  let c1 := ExportBacpac "db" "db.bacpac" "uri" execute in
  let c2 := DeployDacpac "db.dacpac" "db" true "uri" execute None in
  let this := (new st0).1 in
  let r1 := invoke this c1 (run this [] (new st0).2) in
  let before := run this [] r1.2 in
  let r2 := invoke this c2 before in
  ∃ l1 o' o,
    r1.1 = Resolved l1 ∧ l1 = dacfxResult this ∧
    (true = true → r2.1 = Resolved l1) ∧
    deref before l1 = Some o' ∧
    deref r2.2 l1 = Some o ∧
    operationId o = Some "deploy dacpac" ∧
    (@nil Call = [] → operationId o' = Some "export bacpac") ∧
    (is_Some (Some "deploy dacpac") →
     operationId o = Some "export bacpac"
     ↔ Some "deploy dacpac" = Some "export bacpac").
Proof.
  exact (dacfx_result_is_shared {| heap := ∅; next := 0 |} [] []
           (ExportBacpac "db" "db.bacpac" "uri" execute)
           (DeployDacpac "db.dacpac" "db" true "uri" execute None)
           eq_refl).
Defined.

(** C8, as stated, fails for two pairs of calls on a new instance.  After
    [exportBacpac], a call of [getOptionsFromProfile] assigns nothing, and
    the record returned by [exportBacpac] still reads ['export bacpac'], the
    first method's constant.  After [importBacpac], a call of
    [createProjectFromDatabase] leaves ['import bacpac'], which is the
    second method's constant and the first's as well. *)
Lemma dacfx_second_call_may_leave_first_constant :
  let st0 := {| heap := ∅; next := 0 |} in
  let this := (new st0).1 in
  let r1 := invoke this (ExportBacpac "db" "db.bacpac" "uri" execute)
              (new st0).2 in
  let r2 := invoke this (GetOptionsFromProfile "publish.xml") r1.2 in
  let i1 := invoke this (ImportBacpac "db.bacpac" "db" "uri" execute)
              (new st0).2 in
  let i2 := invoke this
              (CreateProjectFromDatabase "db" "project" "app" "1.0" "uri"
                 schemaObjectType execute) i1.2 in
  (∃ l o,
     r1.1 = Resolved l ∧ deref r2.2 l = Some o ∧
     assigned MGetOptionsFromProfile = None ∧
     operationId o = assigned MExportBacpac ∧
     operationId o = Some "export bacpac") ∧
  (∃ l o,
     i1.1 = Resolved l ∧ i2.1 = Resolved l ∧ deref i2.2 l = Some o ∧
     operationId o = assigned MCreateProjectFromDatabase ∧
     operationId o = assigned MImportBacpac ∧
     operationId o = Some "import bacpac").
Proof.
  simpl. split; do 2 eexists.
  - split; [reflexivity|]. split; [vm_compute; reflexivity|]. done.
  - split; [reflexivity|]. split; [reflexivity|].
    split; [vm_compute; reflexivity|]. done.
Qed.

End DacFxSharing.

(** ** More on the query history: configuration, failures, loading *)

Section QueryHistoryLifecycle.
Import QueryHistory.
Context `{Host}.

Lemma secrets_request_cases (r : SecretRequest) (s s' : SecretStorage) p :
  secrets_request r s = (p, s') →
  (p = Resolved tt ∧
   entries s' = match r with
                | ReqStore key value => <[key := value]> (entries s)
                | ReqDelete key => delete key (entries s)
                end ∧
   requests s' = (r, None) :: requests s ∧
   ∀ e, head (outcomes s) ≠ Some (Some e)) ∨
  (∃ e, p = Rejected e ∧ entries s' = entries s ∧
        requests s' = (r, Some e) :: requests s ∧
        head (outcomes s) = Some (Some e)).
Proof.
  unfold secrets_request.
  destruct (head (outcomes s)) as [[e|]|]; intros [= <- <-]; simpl.
  - right. by exists e.
  - left. by split_and!.
  - left. by split_and!.
Qed.

(** What [updateConfigurationValues] does: it sets the two flags from the
    configuration and makes one request to the storage. *)
Lemma updateConfigurationValues_cases (env : Env) (w w' : World) p :
  updateConfigurationValues env w = (p, w') →
  _queryHistoryItems (this w') = _queryHistoryItems (this w) ∧
  _captureEnabled (this w')
    = default true (captureEnabled (getConfiguration env)) ∧
  _persistHistory (this w')
    = default true (persistHistory (getConfiguration env)) ∧
  fired w' = fired w ∧ console w' = console w ∧
  nextAddress w' = nextAddress w ∧
  secrets_request
    (if default true (persistHistory (getConfiguration env))
     then ReqStore STORAGE_KEY (in_memory w)
     else ReqDelete STORAGE_KEY)
    (secrets w) = (p, secrets w').
Proof.
  unfold updateConfigurationValues, storeHistory, in_memory,
    DEFAULT_CAPTURE_ENABLED, DEFAULT_PERSIST_HISTORY,
    mbind, M_bind, mret, M_ret, get_this, set_this, secrets_call.
  simpl.
  destruct (default true (persistHistory (getConfiguration env))); simpl.
  - destruct (secrets_request _ (secrets w)) as [p0 s0].
    intros [= <- <-]. by split_and!.
  - destruct (secrets_request _ (secrets w)) as [p0 s0].
    intros [= <- <-]. by split_and!.
Qed.


(** X5.  The constructor starts from an empty list and, through
    [updateConfigurationValues], makes one request to the storage.  If the storage accepts it, then
    whatever was stored before, the key holds the serialisation of the empty
    list when the configuration asks for persistence (or says nothing), and
    holds nothing when it asks for none. *)
Theorem constructor_rewrites_storage (env : Env) (w0 : World) :
  (∀ e, head (outcomes (secrets w0)) ≠ Some (Some e)) →
  let w := constructor env w0 in
  _queryHistoryItems (this w) = [] ∧
  fired w = 0 ∧
  persisted w =
    (if default true (persistHistory (getConfiguration env))
     then Some (JSON_stringify [])
     else None) ∧
  ∃ r, requests (secrets w) = (r, None) :: requests (secrets w0).
Proof.
  intros Haccept w. unfold w, constructor.
  destruct (updateConfigurationValues env _) as [p w'] eqn:Hrun.
  apply updateConfigurationValues_cases in Hrun
    as (Hitems & _ & _ & Hfired & _ & _ & Hreq).
  simpl in *.
  apply secrets_request_cases in Hreq
    as [(_ & Hentries & Hreqs & _)|(e & _ & _ & _ & Hhead)];
    [|by destruct (Haccept e)].
  split_and!; try done.
  - unfold persisted. rewrite Hentries.
    destruct (default true (persistHistory (getConfiguration env))).
    + apply lookup_insert_eq.
    + apply lookup_delete_eq.
  - by eexists.
Qed.

(** *** Mutations and the storage *)

(** X6.  A mutation that completes and takes effect fires exactly one
    tree-data-change notification. *)
Theorem mutation_notifies_once (m : Mutation) (w w' : World) :
  mutate m w = (Resolved tt, w') →
  took_effect m w w' →
  fired w' = S (fired w).
Proof.
  intros Hrun Heffect.
  destruct (mutate_cases m w _ _ Hrun) as [(_ & _ & _ & Hno)|Hstore];
    [done|].
  destruct Hstore as (w1 & _ & Hfired & _ & Hrun1).
  apply store_then_fire in Hrun1 as (_ & _ & Hout).
  destruct Hout; congruence.
Qed.

Lemma mutate_persistence_off (m : Mutation) (w : World) :
  _persistHistory (this w) = false →
  secrets (mutate m w).2 = secrets w ∧
  _persistHistory (this (mutate m w).2) = false.
Proof.
  intros Hoff. destruct (mutate m w) as [p w'] eqn:Hrun. simpl.
  destruct (mutate_cases m w _ _ Hrun) as [(Hthis & Hs & _)|Hstore].
  { split; [done|]. by rewrite Hthis. }
  destruct Hstore as (w1 & Hs1 & _ & Hp1 & Hrun1).
  apply store_then_fire in Hrun1 as (Hthis & _ & Hout).
  split; [|by rewrite Hthis, Hp1].
  destruct Hout; congruence.
Qed.

(** X7.  While persistence is off, no sequence of mutations makes any
    request to the secret storage: its entries, its request log and the
    outcomes it has in store are as before. *)
Theorem no_storage_traffic_while_persistence_off (ms : list Mutation)
    (w : World) :
  _persistHistory (this w) = false →
  secrets (mutations ms w) = secrets w.
Proof.
  revert w. induction ms as [|m ms IH]; intros w Hoff; [done|].
  change (mutations (m :: ms) w) with (mutations ms (mutate m w).2).
  destruct (mutate_persistence_off m w Hoff) as [Hs Hoff'].
  by rewrite IH.
Qed.


(** X9.  The list that a mutation leaves in memory, and the addresses it
    uses, do not depend on the secret storage: on whether it accepts the
    write, or on what it holds. *)
Theorem memory_independent_of_storage (m : Mutation) (w : World)
    (s : SecretStorage) :
  this (mutate m (with_secrets s w)).2 = this (mutate m w).2 ∧
  nextAddress (mutate m (with_secrets s w)).2 = nextAddress (mutate m w).2.
Proof.
  destruct m as [env document args queryInfo|item|]; simpl;
    unfold onQueryEvent, deleteItem, clearAll, with_secrets,
      storeHistory, set_queryHistoryItems, mbind, M_bind, mret, M_ret,
      get_this, set_this, new_object, console_error, fire_undefined,
      secrets_call, await;
    simpl; repeat case_match; simpl in *; simplify_eq;
    (done || congruence).
Qed.

(** *** What a query-stop event records *)

Ltac enter_listener :=
  unfold deliver, onQueryEvent;
  unfold mbind at 1; unfold M_bind at 1; unfold get_this at 1.

(** X10.  If the host rejects the connection lookup of a query-stop event
    that would otherwise be captured, the listener is rejected with the same
    error and the world is as before: no item, no storage request, no
    notification, no console line. *)
Theorem connection_failure_records_nothing (e : QueryEvent) (w : World)
    (d : TextDocument) (err : Error) :
  _captureEnabled (this w) = true →
  event_type e = queryStop →
  is_Some (event_queryInfo e) →
  d ∈ textDocuments (event_env e) →
  Uri_toString (document_uri d)
    = Uri_toString (Uri_parse (uri (event_document e))) →
  getConnection (event_env e) (uri (event_document e)) = Rejected err →
  deliver e w = (Rejected err, w).
Proof.
  intros Hcap Htype [qi Hqi] Hd Huri Hconn.
  enter_listener. rewrite Hcap, Hqi, Htype. simpl.
  destruct (find_match
              (fun x => String.eqb (Uri_toString (document_uri x))
                          (Uri_toString (Uri_parse (uri (event_document e)))))
              (textDocuments (event_env e))) as [textDocument ->].
  { exists d. split; [done|]. by apply String.eqb_eq. }
  unfold mbind at 1. unfold M_bind at 1. unfold await at 1.
  by rewrite Hconn.
Qed.

(** The item that a captured event puts in front of the list, built from
    the first open document with the URI of the event. *)
Lemma deliver_recorded (e : QueryEvent) (w : World) (qi : QueryInfo)
    (c : option ConnectionProfile) :
  captured w e →
  event_queryInfo e = Some qi →
  getConnection (event_env e) (uri (event_document e)) = Resolved c →
  ∃ p w' textDocument,
    List.find
      (fun x => String.eqb (Uri_toString (document_uri x))
                  (Uri_toString (Uri_parse (uri (event_document e)))))
      (textDocuments (event_env e)) = Some textDocument ∧
    deliver e w = (p, w') ∧
    _queryHistoryItems (this w')
      = (nextAddress w,
         {| queryText :=
              String.concat EOL
                ((fun r => default "" (getText textDocument r))
                   <$> batchRanges qi);
            connectionProfile := c;
            timestamp := now (event_env e);
            isSuccess :=
              match List.find isError (messages qi) with
              | Some _ => false
              | None => true
              end |})
        :: _queryHistoryItems (this w).
Proof.
  intros (Hcap & Htype & _ & (d & Hd & Huri) & _) Hqi Hconn.
  enter_listener. rewrite Hcap, Hqi, Htype. simpl.
  destruct (find_match
              (fun x => String.eqb (Uri_toString (document_uri x))
                          (Uri_toString (Uri_parse (uri (event_document e)))))
              (textDocuments (event_env e))) as [textDocument Hfind].
  { exists d. split; [done|]. by apply String.eqb_eq. }
  rewrite Hfind.
  unfold mbind at 1. unfold M_bind at 1. unfold await at 1.
  rewrite Hconn.
  unfold mbind at 1. unfold M_bind at 1. unfold new_object at 1.
  unfold mbind at 1. unfold M_bind at 1. unfold get_this at 1.
  unfold mbind at 1. unfold M_bind at 1.
  unfold set_queryHistoryItems at 1.
  unfold mbind at 1. unfold M_bind at 1. unfold get_this at 1.
  unfold set_this at 1. simpl.
  match goal with
  | |- context [(storeHistory;; fire_undefined) ?w1] =>
      destruct ((storeHistory;; fire_undefined) w1) as [p w'] eqn:Hrun
  end.
  apply store_then_fire in Hrun as (Hthis & _ & _). simpl in *.
  exists p, w', textDocument. split_and!; try done.
  by rewrite Hthis.
Qed.

(** X11.  The item of a captured query-stop event, recorded whether or not
    the list can then be stored: its text is the text of the batch ranges in
    an open document with the URI of the event, in order and joined by the
    end-of-line string (the empty string for a range without text); its
    connection profile is the one the host returns; its timestamp is the
    clock at the event; and it is a success exactly when no message of the
    query is an error. *)
Theorem recorded_item_fields (e : QueryEvent) (w : World) (qi : QueryInfo)
    (c : option ConnectionProfile) :
  captured w e →
  event_queryInfo e = Some qi →
  getConnection (event_env e) (uri (event_document e)) = Resolved c →
  ∃ p w' v d,
    deliver e w = (p, w') ∧
    _queryHistoryItems (this w')
      = (nextAddress w, v) :: _queryHistoryItems (this w) ∧
    d ∈ textDocuments (event_env e) ∧
    Uri_toString (document_uri d)
      = Uri_toString (Uri_parse (uri (event_document e))) ∧
    queryText v
      = String.concat EOL
          ((fun r => default "" (getText d r)) <$> batchRanges qi) ∧
    connectionProfile v = c ∧
    timestamp v = now (event_env e) ∧
    (isSuccess v = true ↔ ∀ m, m ∈ messages qi → isError m = false).
Proof.
  intros Hcap Hqi Hconn.
  destruct (deliver_recorded e w qi c Hcap Hqi Hconn)
    as (p & w' & d & Hfind & Hrun & Hitems).
  apply find_some in Hfind as [Hin Heqb].
  eexists p, w', _, d. split; [exact Hrun|]. split; [exact Hitems|].
  simpl. split_and!; try done.
  - by apply list_elem_of_In.
  - by apply String.eqb_eq.
  - destruct (List.find isError (messages qi)) as [bad|] eqn:Hbad.
    + apply find_some in Hbad as [Hbadin Hbaderr].
      split; [done|]. intros Hall.
      apply list_elem_of_In in Hbadin. specialize (Hall _ Hbadin).
      congruence.
    + split; [|done]. intros _ m Hm.
      apply list_elem_of_In in Hm.
      by apply (find_none _ _ Hbad).
Qed.

End QueryHistoryLifecycle.

(** ** More on the query history: rows, objects and loading *)

Section QueryHistoryRows.
Import QueryHistory.
Context `{Host}.
Variable JSON_parse : string → Error + list QueryHistoryItem.
Variable QUERY_HISTORY_CONFIG_SECTION : string.
Variable removeNewLines : string → string.
Variable toLocaleString : Date → string.
Variable ITEM_SELECTED_COMMAND_ID : string.

Abbreviation getTreeItem :=
  (getTreeItem removeNewLines toLocaleString ITEM_SELECTED_COMMAND_ID).
Abbreviation act := (act JSON_parse QUERY_HISTORY_CONFIG_SECTION).
Abbreviation acts := (acts JSON_parse QUERY_HISTORY_CONFIG_SECTION).

(** X12.  The row of a captured query-stop event.  After the event, the first
    child of the tree is a leaf whose icon is the success icon exactly when
    no message of the query is an error and the failure icon otherwise,
    whose description ends in the local form of the clock at the event, after
    server and database when the host returned a connection profile, and
    whose command carries the item itself. *)
Theorem tree_item_of_recorded_query (e : QueryEvent) (w : World)
    (qi : QueryInfo) (c : option ConnectionProfile) :
  captured w e →
  event_queryInfo e = Some qi →
  getConnection (event_env e) (uri (event_document e)) = Resolved c →
  ∃ item,
    head (getChildren None (deliver e w).2) = Some item ∧
    collapsibleState (getTreeItem item) = CollapsibleNone ∧
    iconPath (getTreeItem item)
      = (if forallb (fun m => negb (isError m)) (messages qi)
         then successIcon else failedIcon) ∧
    description (getTreeItem item)
      = match c with
        | Some profile =>
            serverName profile ++ "|" ++ databaseName profile ++ " "
              ++ toLocaleString (now (event_env e))
        | None => toLocaleString (now (event_env e))
        end ∧
    command_arguments (command (getTreeItem item)) = [item].
Proof.
  intros Hcap Hqi Hconn.
  destruct (deliver_recorded e w qi c Hcap Hqi Hconn)
    as (p & w' & d & _ & Hrun & Hitems).
  rewrite Hrun. unfold getChildren. simpl. rewrite Hitems. simpl.
  eexists. split; [reflexivity|]. simpl.
  split_and!; try done.
  destruct (List.find isError (messages qi)) as [bad|] eqn:Hbad.
  - apply find_some in Hbad as [Hbadin Hbaderr].
    destruct (forallb _ (messages qi)) eqn:Hall; [|done].
    rewrite forallb_forall in Hall. specialize (Hall _ Hbadin).
    by rewrite Hbaderr in Hall.
  - assert (forallb (fun m => negb (isError m)) (messages qi) = true)
      as ->; [|done].
    apply forallb_forall. intros m Hm.
    by rewrite (find_none _ _ Hbad m Hm).
Qed.

(** *** Deleting a row *)

Ltac run_command :=
  unfold deleteItem, clearAll, setCaptureEnabled, storeHistory,
    set_queryHistoryItems, mbind, M_bind, mret, M_ret, get_this, set_this,
    fire_undefined, secrets_call, await;
  simpl; repeat case_match; simpl in *; simplify_eq.

Lemma deleteItem_memory (item : ItemObject) (w : World) :
  _queryHistoryItems (this (deleteItem item w).2)
    = List.filter (fun n => negb (n.1 =? item.1)%nat)
        (_queryHistoryItems (this w)) ∧
  nextAddress (deleteItem item w).2 = nextAddress w.
Proof. run_command; done. Qed.

Lemma filter_all {A} (f : A → bool) (l : list A) :
  (∀ x, x ∈ l → f x = true) → List.filter f l = l.
Proof.
  induction l as [|a l IH]; intros Hl; simpl; [done|].
  rewrite (Hl a) by apply list_elem_of_here.
  f_equal. apply IH. intros x Hx. apply Hl. by apply list_elem_of_further.
Qed.

(** X13.  In a list of distinct objects, [deleteItem] of an item of the list
    takes out that one row and nothing else: the rows before it and after it
    stay, in their order.  This holds whether or not the list can then be
    stored. *)
Theorem deleteItem_removes_one_row (item : ItemObject) (w : World) :
  distinct_objects w →
  item ∈ _queryHistoryItems (this w) →
  ∃ before after,
    _queryHistoryItems (this w) = (before ++ item :: after)%list ∧
    _queryHistoryItems (this (deleteItem item w).2) = (before ++ after)%list.
Proof.
  intros [Hnodup _] Hin.
  destruct (deleteItem_memory item w) as [-> _].
  apply list_elem_of_split in Hin as (before & after & Hsplit).
  exists before, after. split; [done|].
  rewrite Hsplit in Hnodup |- *.
  rewrite fmap_app, fmap_cons in Hnodup.
  apply NoDup_app in Hnodup as (_ & Hbefore & Hafter).
  apply NoDup_cons in Hafter as [Hafter _].
  rewrite List.filter_app. simpl. rewrite Nat.eqb_refl. simpl.
  rewrite !filter_all; [done| |].
  - intros x Hx. apply negb_true_iff, Nat.eqb_neq. intros Heq.
    apply Hafter. rewrite <- Heq. by apply list_elem_of_fmap_2.
  - intros x Hx. apply negb_true_iff, Nat.eqb_neq. intros Heq.
    apply (Hbefore x.1); [by apply list_elem_of_fmap_2|].
    rewrite Heq. apply list_elem_of_here.
Qed.

(** X14.  [deleteItem] of an object that is not in the list leaves the list
    as it is, and all the same, when persistence is on, asks the storage to
    store it. *)
Theorem deleteItem_of_absent_item (item : ItemObject) (w : World) :
  (∀ x, x ∈ _queryHistoryItems (this w) → x.1 ≠ item.1) →
  _queryHistoryItems (this (deleteItem item w).2)
    = _queryHistoryItems (this w) ∧
  (_persistHistory (this w) = true →
   ∃ outcome,
     requests (secrets (deleteItem item w).2)
       = (ReqStore STORAGE_KEY (in_memory w), outcome)
           :: requests (secrets w)).
Proof.
  intros Habsent.
  assert (List.filter (fun n => negb (n.1 =? item.1)%nat)
            (_queryHistoryItems (this w)) = _queryHistoryItems (this w))
    as Hsame.
  { apply filter_all. intros x Hx.
    apply negb_true_iff, Nat.eqb_neq. by apply Habsent. }
  split.
  - destruct (deleteItem_memory item w) as [-> _]. done.
  - intros Hon. unfold in_memory, deleteItem, storeHistory,
      set_queryHistoryItems, mbind, M_bind, mret, M_ret, get_this, set_this,
      fire_undefined, secrets_call. simpl.
    rewrite Hon, Hsame. unfold secrets_request.
    repeat case_match; simplify_eq; simpl; by eexists.
Qed.

(** *** Loading the stored list *)

Lemma new_objects_spec (vs : list QueryHistoryItem) (w : World) :
  ∃ os,
    new_objects vs w
      = (Resolved os,
         {| this := this w; secrets := secrets w; fired := fired w;
            console := console w;
            nextAddress := nextAddress w + length vs |}) ∧
    os.*1 = seq (nextAddress w) (length vs) ∧
    os.*2 = vs.
Proof.
  revert w. induction vs as [|v vs IH]; intros w.
  - exists []. simpl. unfold mret, M_ret. rewrite Nat.add_0_r.
    by destruct w.
  - simpl. unfold mbind at 1. unfold M_bind at 1. unfold new_object at 1.
    unfold mbind at 1. unfold M_bind at 1.
    destruct (IH {| this := this w; secrets := secrets w; fired := fired w;
                    console := console w;
                    nextAddress := S (nextAddress w) |})
      as (os & -> & Haddr & Hvals).
    simpl in *. exists ((nextAddress w, v) :: os).
    unfold mret, M_ret. split_and!.
    + do 2 f_equal. lia.
    + by rewrite fmap_cons, Haddr.
    + by rewrite fmap_cons, Hvals.
Qed.

Lemma onStoredValue_loaded (text : string) (vs : list QueryHistoryItem)
    (w : World) :
  text ≠ "" →
  JSON_parse text = inr vs →
  ∃ w',
    onStoredValue JSON_parse (Some text) w = (Resolved tt, w') ∧
    (_queryHistoryItems (this w')).*2 = vs ∧
    (_queryHistoryItems (this w')).*1 = seq (nextAddress w) (length vs) ∧
    _captureEnabled (this w') = _captureEnabled (this w) ∧
    _persistHistory (this w') = _persistHistory (this w) ∧
    nextAddress w' = nextAddress w + length vs ∧
    secrets w' = secrets w ∧
    fired w' = S (fired w).
Proof.
  intros Hne Hparse. unfold onStoredValue.
  apply String.eqb_neq in Hne. rewrite Hne, Hparse.
  unfold mbind at 1. unfold M_bind at 1.
  destruct (new_objects_spec vs w) as (os & -> & Haddr & Hvals).
  unfold set_queryHistoryItems, mbind, M_bind, get_this, set_this,
    fire_undefined. simpl.
  eexists. split; [reflexivity|]. simpl. by split_and!.
Qed.

(** X15.  When the stored value arrives and parses, the list in memory is
    replaced by it: the items are those of the parsed list, in its order, as
    new objects, and whatever the list held before is gone.  One
    notification is fired and the storage is left alone. *)
Theorem stored_value_replaces_list (text : string)
    (vs : list QueryHistoryItem) (w : World) :
  text ≠ "" →
  JSON_parse text = inr vs →
  ∃ w',
    onStoredValue JSON_parse (Some text) w = (Resolved tt, w') ∧
    (_queryHistoryItems (this w')).*2 = vs ∧
    (∀ x, x ∈ _queryHistoryItems (this w') → (nextAddress w ≤ x.1)%nat) ∧
    secrets w' = secrets w ∧
    fired w' = S (fired w).
Proof.
  intros Hne Hparse.
  destruct (onStoredValue_loaded text vs w Hne Hparse)
    as (w' & Hrun & Hvals & Haddr & _ & _ & _ & Hs & Hf).
  exists w'. split_and!; try done.
  intros x Hx.
  assert (x.1 ∈ seq (nextAddress w) (length vs)) as Hseq
    by (rewrite <- Haddr; by apply list_elem_of_fmap_2).
  apply elem_of_seq in Hseq. lia.
Qed.

Lemma stored_value_not_loaded_world (value : option string) (w : World) :
  value = None ∨ value = Some "" ∨
    (∃ text e, value = Some text ∧ JSON_parse text = inl e) →
  (onStoredValue JSON_parse value w).2 = w.
Proof.
  intros [->|[->|(text & e & -> & Hparse)]]; simpl; try done.
  unfold onStoredValue. destruct (String.eqb text ""); [done|].
  by rewrite Hparse.
Qed.

(** X16.  When there is no stored value, or it is the empty string, or it
    does not parse, the callback changes nothing: the list, the storage and
    the notification count are as before. *)
Theorem stored_value_not_loaded (value : option string) (w : World) :
  value = None ∨ value = Some "" ∨
    (∃ text e, value = Some text ∧ JSON_parse text = inl e) →
  (onStoredValue JSON_parse value w).2 = w.
Proof.
  intros [->|[->|(text & e & -> & Hparse)]].
  - reflexivity.
  - reflexivity.
  - unfold onStoredValue.
    destruct (String.eqb text ""); [reflexivity|].
    rewrite Hparse. reflexivity.
Qed.

(** *** Switching capture off *)

Lemma deliver_capture_off (e : QueryEvent) (w : World) :
  _captureEnabled (this w) = false → deliver e w = (Resolved tt, w).
Proof.
  intros Hoff. unfold deliver, onQueryEvent.
  unfold mbind, M_bind, get_this. by rewrite Hoff.
Qed.

(** X18.  After [setCaptureEnabled(false)], and also when the host rejects
    the update of the configuration, the query events that follow are
    ignored: the listener resolves and changes nothing.  The call itself settles as the
    host's update does and touches neither the list nor the storage. *)
Theorem setCaptureEnabled_false_stops_recording
    (update : bool → Promise Error ()) (w : World) (es : list QueryEvent) :
  let r := setCaptureEnabled update false w in
  r.1 = update false ∧
  _queryHistoryItems (this r.2) = _queryHistoryItems (this w) ∧
  secrets r.2 = secrets w ∧
  dispatch es r.2 = r.2.
Proof.
  intros r. unfold r, setCaptureEnabled, mbind, M_bind, get_this, set_this,
    await. simpl.
  split_and!; try by destruct (update false).
  match goal with |- dispatch es ?w1 = _ => generalize (eq_refl w1);
    generalize w1 at 1 3 4 end.
  intros w1 Hw1.
  assert (_captureEnabled (this w1) = false) as Hoff.
  { rewrite Hw1. by destruct (update false). }
  clear Hw1. induction es as [|e es IH]; [done|].
  change (dispatch (e :: es) w1) with (dispatch es (deliver e w1).2).
  by rewrite deliver_capture_off.
Qed.

(** *** The items are distinct objects *)

Lemma deliver_memory (e : QueryEvent) (w : World) :
  (_queryHistoryItems (this (deliver e w).2) = _queryHistoryItems (this w) ∧
   nextAddress (deliver e w).2 = nextAddress w) ∨
  ∃ v, _queryHistoryItems (this (deliver e w).2)
         = (nextAddress w, v) :: _queryHistoryItems (this w) ∧
       nextAddress (deliver e w).2 = S (nextAddress w).
Proof.
  unfold deliver, onQueryEvent, storeHistory, set_queryHistoryItems,
    mbind, M_bind, mret, M_ret, get_this, set_this, new_object,
    console_error, fire_undefined, secrets_call, await.
  simpl. repeat case_match; simpl in *; simplify_eq;
    first [by left | right; by eexists].
Qed.

Lemma filter_sublist {A} (f : A → bool) (l : list A) :
  List.filter f l `sublist_of` l.
Proof.
  induction l as [|a l IH]; simpl; [done|].
  destruct (f a); by constructor.
Qed.

Lemma act_distinct (a : Action) (w : World) :
  distinct_objects w → distinct_objects (act a w).2.
Proof.
  intros [Hnodup Hbelow].
  assert (∀ w', _queryHistoryItems (this w') = _queryHistoryItems (this w) →
                nextAddress w' = nextAddress w → distinct_objects w')
    as Hsame.
  { intros w' Hitems Hnext. unfold distinct_objects.
    by rewrite Hitems, Hnext. }
  destruct a as [e|value|env e|item| |update enabled]; simpl.
  - destruct (deliver_memory e w) as [[Hitems Hnext]|(v & Hitems & Hnext)];
      [by apply Hsame|].
    unfold distinct_objects. rewrite Hitems, Hnext, fmap_cons. simpl. split.
    + apply NoDup_cons. split; [|done]. intros Hin.
      rewrite Forall_forall in Hbelow. specialize (Hbelow _ Hin). lia.
    + apply Forall_cons. split; [lia|].
      eapply Forall_impl; [exact Hbelow|]. simpl. lia.
  - destruct value as [text|]; [|by apply Hsame].
    destruct (decide (text = "")) as [->|Hne]; [by apply Hsame|].
    destruct (JSON_parse text) as [err|vs] eqn:Hparse.
    + rewrite stored_value_not_loaded_world; [by apply Hsame|].
      right. right. by exists text, err.
    + destruct (onStoredValue_loaded text vs w Hne Hparse)
        as (w' & -> & _ & Haddr & _ & _ & Hnext & _).
      unfold distinct_objects. simpl. rewrite Haddr, Hnext. split.
      * apply NoDup_seq.
      * apply Forall_seq. lia.
  - unfold onDidChangeConfiguration.
    destruct (affectsConfiguration e QUERY_HISTORY_CONFIG_SECTION);
      [|by apply Hsame].
    destruct (updateConfigurationValues env w) as [p w'] eqn:Hrun.
    apply updateConfigurationValues_cases in Hrun
      as (Hitems & _ & _ & _ & _ & Hnext & _).
    by apply Hsame.
  - destruct (deleteItem_memory item w) as [Hitems Hnext].
    unfold distinct_objects. rewrite Hitems, Hnext.
    assert ((List.filter (fun n => negb (n.1 =? item.1)%nat)
               (_queryHistoryItems (this w))).*1
              `sublist_of` (_queryHistoryItems (this w)).*1) as Hsub
      by apply fmap_sublist, filter_sublist.
    split.
    + by eapply sublist_NoDup.
    + rewrite Forall_forall in Hbelow |- *. intros x Hx. apply Hbelow.
      by eapply elem_of_sublist.
  - unfold distinct_objects. run_command; split; constructor.
  - apply Hsame; run_command; done.
Qed.

(** X19.  From its construction on, whatever the host delivers (query
    events, the stored value, configuration changes) and whatever commands
    run (delete, clear, capture on or off), the items of the list are
    distinct objects with allocated addresses: no object is in the list
    twice. *)
Theorem history_objects_stay_distinct (env : Env) (w0 : World)
    (l : list Action) :
  distinct_objects (acts l (constructor env w0)).
Proof.
  assert (distinct_objects (constructor env w0)) as Hinit.
  { unfold constructor.
    destruct (updateConfigurationValues env _) as [p w'] eqn:Hrun.
    apply updateConfigurationValues_cases in Hrun as (Hitems & _).
    unfold distinct_objects. simpl in *. rewrite Hitems.
    split; constructor. }
  revert Hinit. generalize (constructor env w0).
  induction l as [|a l IH]; intros w Hw; [done|].
  apply (IH (act a w).2). by apply act_distinct.
Qed.

End QueryHistoryRows.

(** ** Concrete runs for the further properties *)

Section FurtherRuns.
Import QueryHistory.
#[local] Existing Instance sample_host.

Lemma constructor_rewrites_storage_witness :
  let w0 := sample_history [] true in
  let w := constructor (sample_env 0%Z None) w0 in
  _queryHistoryItems (this w) = [] ∧
  fired w = 0 ∧
  persisted w = Some "[]" ∧
  ∃ r, requests (secrets w) = (r, None) :: requests (secrets w0).
Proof.
  apply (constructor_rewrites_storage (sample_env 0%Z None)
           (sample_history [] true)).
  intros e. simpl. discriminate.
Defined.

Lemma mutation_notifies_once_witness :
  fired (mutate (DeleteItem (0, sample_item "SELECT 1"))
           (sample_history [] true)).2 = 1.
Proof.
  apply (mutation_notifies_once (DeleteItem (0, sample_item "SELECT 1"))
           (sample_history [] true)).
  - vm_compute. reflexivity.
  - exact I.
Defined.

Lemma no_storage_traffic_while_persistence_off_witness :
  secrets (mutations [sample_stop 1000%Z None; ClearAll]
             (sample_history [Some "storage unavailable"] false))
  = secrets (sample_history [Some "storage unavailable"] false).
Proof.
  apply (no_storage_traffic_while_persistence_off
           [sample_stop 1000%Z None; ClearAll]
           (sample_history [Some "storage unavailable"] false)).
  reflexivity.
Defined.


Lemma connection_failure_records_nothing_witness :
  deliver (sample_event_offline 1000%Z) (sample_world [])
  = (Rejected "connection lost", sample_world []).
Proof.
  apply (connection_failure_records_nothing (sample_event_offline 1000%Z)
           (sample_world []) sample_document "connection lost").
  - reflexivity.
  - reflexivity.
  - by eexists.
  - apply list_elem_of_here.
  - reflexivity.
  - reflexivity.
Defined.

Lemma recorded_item_fields_witness :
  ∃ p w' v d,
    deliver (sample_event 1000%Z) (sample_world []) = (p, w') ∧
    _queryHistoryItems (this w') = [(0, v)] ∧
    d ∈ [sample_document] ∧
    Uri_toString (document_uri d) = "untitled:SQLQuery_1" ∧
    queryText v = "SELECT 1" ∧
    connectionProfile v = Some sample_profile ∧
    timestamp v = 1000%Z ∧
    (isSuccess v = true ↔
     ∀ m, m ∈ messages sample_queryInfo → isError m = false).
Proof.
  destruct (recorded_item_fields (sample_event 1000%Z) (sample_world [])
              sample_queryInfo (Some sample_profile))
    as (p & w' & v & d & Hrun & Hitems & Hd & Huri & Htext & Hc & Ht & Hs).
  - apply sample_event_captured.
  - reflexivity.
  - reflexivity.
  - exists p, w', v, d. split_and!; try done.
    simpl in Hd. apply list_elem_of_singleton in Hd. subst d.
    rewrite Htext. reflexivity.
Defined.

Lemma tree_item_of_recorded_query_witness :
  ∃ item,
    head (getChildren None
            (deliver (sample_event 1000%Z) (sample_world [])).2)
      = Some item ∧
    collapsibleState
      (getTreeItem sample_removeNewLines sample_toLocaleString
         "queryHistory.open" item) = CollapsibleNone ∧
    iconPath
      (getTreeItem sample_removeNewLines sample_toLocaleString
         "queryHistory.open" item) = successIcon ∧
    description
      (getTreeItem sample_removeNewLines sample_toLocaleString
         "queryHistory.open" item) = "localhost|master 1 s" ∧
    command_arguments
      (command
         (getTreeItem sample_removeNewLines sample_toLocaleString
            "queryHistory.open" item)) = [item].
Proof.
  apply (tree_item_of_recorded_query sample_removeNewLines
           sample_toLocaleString "queryHistory.open"
           (sample_event 1000%Z) (sample_world [])
           sample_queryInfo (Some sample_profile)).
  - apply sample_event_captured.
  - reflexivity.
  - reflexivity.
Defined.

Lemma sample_history_distinct fails persist :
  distinct_objects (sample_history fails persist).
Proof.
  split; simpl.
  - apply NoDup_cons. split; [|apply NoDup_singleton].
    intros Hin. apply list_elem_of_singleton in Hin. discriminate.
  - repeat constructor.
Qed.

Lemma deleteItem_removes_one_row_witness :
  ∃ before after,
    [(1, sample_item "SELECT 2"); (0, sample_item "SELECT 1")]
      = (before ++ (1, sample_item "SELECT 2") :: after)%list ∧
    _queryHistoryItems
      (this (deleteItem (1, sample_item "SELECT 2")
               (sample_history [] true)).2)
      = (before ++ after)%list.
Proof.
  apply (deleteItem_removes_one_row (1, sample_item "SELECT 2")
           (sample_history [] true)).
  - apply sample_history_distinct.
  - apply list_elem_of_here.
Defined.

Lemma deleteItem_of_absent_item_witness :
  let w := sample_history [] true in
  let w' := (deleteItem (7, sample_item "SELECT 7") w).2 in
  _queryHistoryItems (this w') = _queryHistoryItems (this w) ∧
  (true = true →
   ∃ outcome,
     requests (secrets w')
       = (ReqStore STORAGE_KEY (in_memory w), outcome)
           :: requests (secrets w)).
Proof.
  apply (deleteItem_of_absent_item (7, sample_item "SELECT 7")
           (sample_history [] true)).
  intros x Hx. simpl in Hx.
  apply elem_of_cons in Hx as [->|Hx]; [simpl; lia|].
  apply list_elem_of_singleton in Hx as ->. simpl. lia.
Defined.

Lemma stored_value_replaces_list_witness :
  ∃ w',
    onStoredValue sample_parse (Some "[SELECT 3,SELECT 4]")
      (sample_history [] true) = (Resolved tt, w') ∧
    (_queryHistoryItems (this w')).*2
      = [sample_item "SELECT 3"; sample_item "SELECT 4"] ∧
    (∀ x, x ∈ _queryHistoryItems (this w') → (2 ≤ x.1)%nat) ∧
    secrets w' = secrets (sample_history [] true) ∧
    fired w' = 1.
Proof.
  apply (stored_value_replaces_list sample_parse "[SELECT 3,SELECT 4]"
           [sample_item "SELECT 3"; sample_item "SELECT 4"]
           (sample_history [] true)).
  - discriminate.
  - vm_compute. reflexivity.
Defined.

Lemma stored_value_not_loaded_witness :
  (onStoredValue sample_parse (Some "SELECT 3") (sample_history [] true)).2
  = sample_history [] true.
Proof.
  apply (stored_value_not_loaded sample_parse (Some "SELECT 3")
           (sample_history [] true)).
  right. right. exists "SELECT 3", "SyntaxError: Unexpected token".
  split; [reflexivity|]. vm_compute. reflexivity.
Defined.

End FurtherRuns.

(** ** Listener calls that overlap: the order of the list *)

Section QueryHistoryInterleaving.
Import QueryHistory.
Context `{Host}.

(** The listener is its first part followed, when that part stops at the
    [await], by its second part. *)
Lemma onQueryEvent_split (env : Env) (type : QueryEventType)
    (document : QueryDocument) (args : QueryEventArgs)
    (queryInfo : option QueryInfo) (w : World) :
  onQueryEvent env type document args queryInfo w
  = match onQueryEvent_start env type document args queryInfo w with
    | (Resolved (Some s), w1) => onQueryEvent_resume env s w1
    | (Resolved None, w1) => (Resolved tt, w1)
    | (Rejected e, w1) => (Rejected e, w1)
    end.
Proof.
  unfold onQueryEvent, onQueryEvent_start, onQueryEvent_resume,
    mbind, M_bind, mret, M_ret, get_this, console_error.
  simpl.
  destruct (_captureEnabled (this w)); [|reflexivity].
  destruct queryInfo as [qi|]; [|reflexivity].
  destruct (decide (type = queryStop)); [|reflexivity].
  destruct (List.find _ (textDocuments env)); reflexivity.
Qed.

(** An event that is answered before anything else happens is an event
    delivered to a listener that runs to completion. *)
Lemma turn_arrives_answered (e : QueryEvent) (w : World) :
  turn (Answered 0 (event_env e)) (turn (Arrives e) (w, []))
  = ((deliver e w).2, []).
Proof.
  unfold deliver. rewrite onQueryEvent_split. unfold turn at 2. simpl.
  destruct (onQueryEvent_start _ _ _ _ _ w) as [[[s|]|err] w1]; done.
Qed.

Lemma turns_one_by_one (es : list QueryEvent) (w : World) :
  turns (one_by_one es) (w, []) = (dispatch es w, []).
Proof.
  revert w. induction es as [|e es IH]; intros w; [done|].
  change (one_by_one (e :: es))
    with (Arrives e :: Answered 0 (event_env e) :: one_by_one es).
  change (turns (Arrives e :: Answered 0 (event_env e) :: one_by_one es)
            (w, []))
    with (turns (one_by_one es)
            (turn (Answered 0 (event_env e)) (turn (Arrives e) (w, [])))).
  rewrite turn_arrives_answered. apply IH.
Qed.

(** A turn leaves the list as it is, or it is an answer and puts one new
    object, stamped with the clock of the answer, in front of it. *)
Lemma turn_memory (t : Turn) (st : World * list Suspended) :
  (_queryHistoryItems (this (turn t st).1) = _queryHistoryItems (this st.1) ∧
   nextAddress (turn t st).1 = nextAddress st.1) ∨
  ∃ n env v,
    t = Answered n env ∧
    _queryHistoryItems (this (turn t st).1)
      = (nextAddress st.1, v) :: _queryHistoryItems (this st.1) ∧
    timestamp v = now env ∧
    nextAddress (turn t st).1 = S (nextAddress st.1).
Proof.
  destruct st as [w pending]. destruct t as [e|n env]; simpl.
  - left.
    unfold onQueryEvent_start, mbind, M_bind, mret, M_ret, get_this,
      console_error.
    simpl. repeat case_match; simpl in *; simplify_eq; done.
  - destruct (pending !! n) as [s|]; [|by left]. simpl.
    destruct (onQueryEvent_resume env s w) as [p w'] eqn:Hres. simpl.
    revert Hres. unfold onQueryEvent_resume.
    unfold mbind at 1. unfold M_bind at 1. unfold await at 1.
    destruct (getConnection env (uri (suspended_document s))) as [c|err];
      [|intros [= <- <-]; by left].
    unfold mbind at 1. unfold M_bind at 1. unfold new_object at 1.
    unfold mbind at 1. unfold M_bind at 1. unfold get_this at 1.
    unfold mbind at 1. unfold M_bind at 1.
    unfold set_queryHistoryItems at 1.
    unfold mbind at 1. unfold M_bind at 1. unfold get_this at 1.
    unfold set_this at 1. simpl.
    intros Hrun.
    apply store_then_fire in Hrun as (Hthis & Hnext & _). simpl in *.
    right. exists n, env. eexists. rewrite Hthis, Hnext. simpl.
    by split_and!.
Qed.

Lemma turns_memory (ts : list Turn) (st : World * list Suspended) :
  ∃ news : list ItemObject,
    _queryHistoryItems (this (turns ts st).1)
      = (rev news ++ _queryHistoryItems (this st.1))%list ∧
    news.*1 = seq (nextAddress st.1) (length news) ∧
    (timestamp ∘ snd) <$> news `sublist_of` answer_clocks ts.
Proof.
  revert st. induction ts as [|t ts IH]; intros st.
  - exists []. by split_and!.
  - change (turns (t :: ts) st) with (turns ts (turn t st)).
    destruct (IH (turn t st)) as (news & Hitems & Haddr & Hclocks).
    destruct (turn_memory t st)
      as [[Hsame Hnext]|(n & env & v & -> & Hcons & Hstamp & Hnext)].
    + exists news. rewrite Hitems, Hsame, Haddr, Hnext.
      split_and!; try done.
      destruct t as [e|n env]; [done|].
      change (answer_clocks (Answered n env :: ts))
        with (now env :: answer_clocks ts).
      by apply sublist_cons.
    + exists ((nextAddress st.1, v) :: news). split_and!.
      * rewrite Hitems, Hcons. cbn [rev]. by rewrite <- app_assoc.
      * rewrite fmap_cons. cbn [length seq fst]. f_equal.
        by rewrite Haddr, Hnext.
      * rewrite fmap_cons.
        change (answer_clocks (Answered n env :: ts))
          with (now env :: answer_clocks ts).
        change ((timestamp ∘ snd) (nextAddress st.1, v)) with (timestamp v).
        rewrite Hstamp. by apply sublist_skip.
Qed.

(** C2, as amended.  However the arrivals of query events and the answers
    to the connection lookups of the waiting listener calls follow each
    other, the new items lie in front of the items that were there, which
    keep their order, and each new item lies in front of those recorded
    before it: read from the oldest to the newest, the new items carry the
    object addresses in allocation order and clock readings of the answers
    in the order of the answers.  When the events are captured and each is
    answered before the next arrives, these are the clock readings of the
    events in arrival order, one item for each event. *)
Theorem history_newest_recorded_first (ts : list Turn) (w : World)
    (waiting : list Suspended) :
  ∃ news : list ItemObject,
    _queryHistoryItems (this (turns ts (w, waiting)).1)
      = (rev news ++ _queryHistoryItems (this w))%list ∧
    news.*1 = seq (nextAddress w) (length news) ∧
    (timestamp ∘ snd) <$> news `sublist_of` answer_clocks ts ∧
    ∀ es,
      waiting = [] → ts = one_by_one es → Forall (captured w) es →
      (timestamp ∘ snd) <$> news = (now ∘ event_env) <$> es.
Proof.
  destruct (turns_memory ts (w, waiting)) as (news & Hitems & Haddr & Hclocks).
  exists news. split_and!; try done.
  intros es -> -> Hcaptured.
  rewrite turns_one_by_one in Hitems. simpl in Hitems.
  destruct (history_newest_first es w Hcaptured)
    as (news' & Hitems' & Hstamps & _).
  rewrite Hitems' in Hitems. apply app_inv_tail in Hitems.
  apply (f_equal (@rev ItemObject)) in Hitems.
  rewrite !rev_involutive in Hitems. by subst news'.
Qed.

End QueryHistoryInterleaving.

(** ** Concrete runs with overlapping listener calls *)

Section InterleavedRuns.
Import QueryHistory.
#[local] Existing Instance sample_host.

(** C2, as stated, fails when two listener calls overlap.  The query
    [SELECT 1] stops first and the query [SELECT 2] second; the host answers
    the connection lookup of the second at clock 2000 and that of the first
    at clock 3000.  The item of the first arrival is then in front of the
    item of the second, with the later timestamp. *)
Lemma history_overlapping_events_out_of_arrival_order :
  let ts := [Arrives (sample_event 1000%Z);
             Arrives (sample_event_second 1001%Z);
             Answered 1 (sample_env 2000%Z None);
             Answered 0 (sample_env 3000%Z None)] in
  (fun x => (queryText x.2, timestamp x.2))
    <$> _queryHistoryItems (this (turns ts (sample_world [], [])).1)
  = [("SELECT 1", 3000%Z); ("SELECT 2", 2000%Z)].
Proof. vm_compute. reflexivity. Qed.

Lemma sample_event_second_captured clock :
  captured (sample_world []) (sample_event_second clock).
Proof.
  split_and!; try reflexivity.
  - by eexists.
  - exists sample_document. split; [apply list_elem_of_here|reflexivity].
  - by eexists.
Qed.

Lemma history_newest_recorded_first_witness :
  let es := [sample_event 1000%Z; sample_event_second 2000%Z] in
  ∃ news : list ItemObject,
    _queryHistoryItems (this (turns (one_by_one es) (sample_world [], [])).1)
      = (rev news ++ [])%list ∧
    news.*1 = seq 0 (length news) ∧
    (timestamp ∘ snd) <$> news = [1000%Z; 2000%Z].
Proof.
  intros es.
  destruct (history_newest_recorded_first (one_by_one es) (sample_world [])
              [])
    as (news & Hitems & Haddr & _ & Harrival).
  exists news. split_and!; [exact Hitems|exact Haddr|].
  apply (Harrival es); [reflexivity|reflexivity|].
  constructor; [apply sample_event_captured|].
  constructor; [apply sample_event_second_captured|].
  constructor.
Defined.

End InterleavedRuns.
